(** * Todo-list: a shallow embedding of [src/main.js]

    The page script keeps an array of todo records, writes it to
    [window.localStorage] as JSON after every change and re-renders the list
    filtered by the URL fragment.  This development embeds that script:

    - JavaScript strings are sequences of UTF-16 code units ([list N]);
    - the todo array is a [list] of records, [window.localStorage] a [gmap];
    - the DOM is reduced to what the script reads and writes: the input's
      [value], the URL hash, the children of the list element, the counter's
      [innerHTML], and per event the answers of [matches], [closest] and
      [querySelector];
    - a listener that dereferences [null] ends with an uncaught [TypeError];
      listeners return the state they leave behind together with the errors
      they raised;
    - [JSON.stringify] and [JSON.parse] are modelled on values built from
      null, booleans, strings, arrays and objects (the collection holds no
      numbers).

    The highlighting of the filter links at the end of [renderTodos] (lines
    76-82) touches no state that the properties below observe and is left
    out.  [listEl_children] holds the rows as [renderTodos] last installed
    them: what the user types into the editable region of a row reaches the
    script with the keydown event ([value_region]) and is not written back
    into those rows. *)

From Stdlib Require Import NArith List Ascii String DecimalString.
From stdpp Require Import gmap list.

(** ** JavaScript strings *)

Abbreviation jsstring := (list N).

(** A string literal of the script, as code units. *)
Fixpoint js (s : string) : jsstring :=
  match s with
  | EmptyString => []
  | String a r => N_of_ascii a :: js r
  end.

(** [a === b] on strings. *)
Definition strict_eq (a b : jsstring) : bool := bool_decide (a = b).

(** WhiteSpace and LineTerminator code units, as [String.prototype.trim]
    strips them. *)
Definition is_white_space (c : N) : bool :=
  (c =? 9)%N || (c =? 10)%N || (c =? 11)%N || (c =? 12)%N || (c =? 13)%N
  || (c =? 32)%N || (c =? 160)%N || (c =? 5760)%N
  || ((8192 <=? c)%N && (c <=? 8202)%N)
  || (c =? 8232)%N || (c =? 8233)%N || (c =? 8239)%N || (c =? 8287)%N
  || (c =? 12288)%N || (c =? 65279)%N.

Fixpoint trim_start (s : jsstring) : jsstring :=
  match s with
  | [] => []
  | c :: r => if is_white_space c then trim_start r else s
  end.

Definition trim_end (s : jsstring) : jsstring := rev (trim_start (rev s)).

(** [s.trim()] *)
Definition trim (s : jsstring) : jsstring := trim_end (trim_start s).

(** [`${n}`] for an array length. *)
Definition number_to_string (n : nat) : jsstring :=
  js (NilZero.string_of_uint (Nat.to_uint n)).

(** ** Abrupt completion *)

Inductive Error := TypeError | SyntaxError.

Inductive Completion (A : Type) :=
| Normal (a : A)
| Throw (e : Error).
Arguments Normal {A} a.
Arguments Throw {A} e.

Definition bind {A B} (c : Completion A) (k : A -> Completion B) : Completion B :=
  match c with
  | Normal a => k a
  | Throw e => Throw e
  end.

Notation "'let*' x ':=' c 'in' k" := (bind c (fun x => k))
  (at level 10, x name, c at level 100, k at level 200).

(** [l.map(f)] with a callback that may throw: the first throw ends the
    traversal; on an empty array the callback never runs. *)
Fixpoint Array_map {A B} (f : A -> Completion B) (l : list A) : Completion (list B) :=
  match l with
  | [] => Normal []
  | x :: r =>
      let* y := f x in
      let* ys := Array_map f r in
      Normal (y :: ys)
  end.

(** [l.filter(f)] with a callback that may throw. *)
Fixpoint Array_filter {A} (f : A -> Completion bool) (l : list A) : Completion (list A) :=
  match l with
  | [] => Normal []
  | x :: r =>
      let* keep := f x in
      let* xs := Array_filter f r in
      Normal (if keep then x :: xs else xs)
  end.

(** ** The data model *)

Module Todo.
Record t := mk { value : jsstring; id : jsstring; completed : bool }.

(** [{ ...todo, completed: c }] *)
Definition with_completed (todo : t) (c : bool) : t :=
  {| value := value todo; id := id todo; completed := c |}.

(** [{ ...todo, value: v }] *)
Definition with_value (todo : t) (v : jsstring) : t :=
  {| value := v; id := id todo; completed := completed todo |}.
End Todo.

(** [filterNotCompletedTodos] (line 15) *)
Definition filterNotCompletedTodos (todos : list Todo.t) : list Todo.t :=
  List.filter (fun todo => negb (Todo.completed todo)) todos.

(** ** JSON *)

Module JSON.
Local Open Scope N_scope.

#[warnings="-register-all"]
Inductive value :=
| Null
| Bool (b : bool)
| Str (s : jsstring)
| Arr (elements : list value)
| Obj (members : list (jsstring * value)).

(** *** [JSON.stringify] *)

Definition hex_digit (d : N) : N := if d <? 10 then 48 + d else 87 + d.

(** [\uXXXX], lower-case digits. *)
Definition unicode_escape (c : N) : jsstring :=
  [92; 117; hex_digit (c / 4096 mod 16); hex_digit (c / 256 mod 16);
   hex_digit (c / 16 mod 16); hex_digit (c mod 16)].

Definition is_leading_surrogate (c : N) : bool := (55296 <=? c) && (c <=? 56319).
Definition is_trailing_surrogate (c : N) : bool := (56320 <=? c) && (c <=? 57343).

(** One code unit that is not half of a well-formed surrogate pair. *)
Definition quote_unit (c : N) : jsstring :=
  if c =? 8 then [92; 98]
  else if c =? 9 then [92; 116]
  else if c =? 10 then [92; 110]
  else if c =? 12 then [92; 102]
  else if c =? 13 then [92; 114]
  else if c =? 34 then [92; 34]
  else if c =? 92 then [92; 92]
  else if (c <? 32) || is_leading_surrogate c || is_trailing_surrogate c
       then unicode_escape c
  else [c].

(** The characters between the quotes of QuoteJSONString: the string is
    read by code points, so a leading surrogate followed by a trailing one
    is copied as it is and a lone surrogate is escaped. *)
Fixpoint quote_body (s : jsstring) : jsstring :=
  match s with
  | [] => []
  | c :: r =>
      if is_leading_surrogate c then
        match r with
        | d :: r' =>
            if is_trailing_surrogate d then c :: d :: quote_body r'
            else unicode_escape c ++ quote_body r
        | [] => unicode_escape c
        end
      else quote_unit c ++ quote_body r
  end.

Definition quote (s : jsstring) : jsstring := 34 :: quote_body s ++ [34].

(** The parts of an array or object, separated by commas. *)
Fixpoint join_comma (parts : list jsstring) : jsstring :=
  match parts with
  | [] => []
  | p :: r =>
      p ++ match r with
           | [] => []
           | _ :: _ => 44 :: join_comma r
           end
  end.

(** [JSON.stringify(v)], without indentation. *)
Fixpoint stringify (v : value) : jsstring :=
  match v with
  | Null => js "null"
  | Bool true => js "true"
  | Bool false => js "false"
  | Str s => quote s
  | Arr l => 91 :: join_comma (map stringify l) ++ [93]
  | Obj ms =>
      123 :: join_comma (map (fun '(k, x) => quote k ++ 58 :: stringify x) ms)
          ++ [125]
  end.

(** *** [JSON.parse] *)

Definition is_ws (c : N) : bool :=
  (c =? 9) || (c =? 10) || (c =? 13) || (c =? 32).

Fixpoint skip_ws (s : jsstring) : jsstring :=
  match s with
  | [] => []
  | c :: r => if is_ws c then skip_ws r else s
  end.

Definition hex_value (c : N) : option N :=
  if (48 <=? c) && (c <=? 57) then Some (c - 48)
  else if (97 <=? c) && (c <=? 102) then Some (c - 87)
  else if (65 <=? c) && (c <=? 70) then Some (c - 55)
  else None.

Definition hex4 (a b c d : N) : option N :=
  match hex_value a, hex_value b, hex_value c, hex_value d with
  | Some x3, Some x2, Some x1, Some x0 => Some (((x3 * 16 + x2) * 16 + x1) * 16 + x0)
  | _, _, _, _ => None
  end.

Definition simple_escape (c : N) : option N :=
  if c =? 34 then Some 34
  else if c =? 92 then Some 92
  else if c =? 47 then Some 47
  else if c =? 98 then Some 8
  else if c =? 102 then Some 12
  else if c =? 110 then Some 10
  else if c =? 114 then Some 13
  else if c =? 116 then Some 9
  else None.

(** The characters of a string literal after its opening quote, up to and
    including the closing quote; the rest of the input is returned. *)
Fixpoint parse_string_body (s : jsstring) : option (jsstring * jsstring) :=
  match s with
  | [] => None
  | c :: r =>
      if c =? 34 then Some ([], r)
      else if c =? 92 then
        match r with
        | [] => None
        | e :: r1 =>
            if e =? 117 then
              match r1 with
              | h3 :: h2 :: h1 :: h0 :: r2 =>
                  match hex4 h3 h2 h1 h0, parse_string_body r2 with
                  | Some u, Some (str, rest) => Some (u :: str, rest)
                  | _, _ => None
                  end
              | _ => None
              end
            else
              match simple_escape e, parse_string_body r1 with
              | Some u, Some (str, rest) => Some (u :: str, rest)
              | _, _ => None
              end
        end
      else if c <? 32 then None
      else
        match parse_string_body r with
        | Some (str, rest) => Some (c :: str, rest)
        | None => None
        end
  end.

(** Recursive descent; [fuel] bounds the nesting of calls. *)
Fixpoint parse_value (fuel : nat) (s : jsstring) : option (value * jsstring) :=
  match fuel with
  | O => None
  | S fuel' =>
      match skip_ws s with
      | 110 :: 117 :: 108 :: 108 :: r => Some (Null, r)
      | 116 :: 114 :: 117 :: 101 :: r => Some (Bool true, r)
      | 102 :: 97 :: 108 :: 115 :: 101 :: r => Some (Bool false, r)
      | 34 :: r =>
          match parse_string_body r with
          | Some (str, rest) => Some (Str str, rest)
          | None => None
          end
      | 91 :: r =>
          match skip_ws r with
          | 93 :: rest => Some (Arr [], rest)
          | _ =>
              match parse_elements fuel' r with
              | Some (l, rest) => Some (Arr l, rest)
              | None => None
              end
          end
      | 123 :: r =>
          match skip_ws r with
          | 125 :: rest => Some (Obj [], rest)
          | _ =>
              match parse_members fuel' r with
              | Some (ms, rest) => Some (Obj ms, rest)
              | None => None
              end
          end
      | _ => None
      end
  end
with parse_elements (fuel : nat) (s : jsstring) : option (list value * jsstring) :=
  match fuel with
  | O => None
  | S fuel' =>
      match parse_value fuel' s with
      | Some (x, r) =>
          match skip_ws r with
          | 44 :: r' =>
              match parse_elements fuel' r' with
              | Some (l, rest) => Some (x :: l, rest)
              | None => None
              end
          | 93 :: rest => Some ([x], rest)
          | _ => None
          end
      | None => None
      end
  end
with parse_members (fuel : nat) (s : jsstring)
  : option (list (jsstring * value) * jsstring) :=
  match fuel with
  | O => None
  | S fuel' =>
      match skip_ws s with
      | 34 :: r =>
          match parse_string_body r with
          | Some (k, r0) =>
              match skip_ws r0 with
              | 58 :: r1 =>
                  match parse_value fuel' r1 with
                  | Some (x, r2) =>
                      match skip_ws r2 with
                      | 44 :: r' =>
                          match parse_members fuel' r' with
                          | Some (ms, rest) => Some ((k, x) :: ms, rest)
                          | None => None
                          end
                      | 125 :: rest => Some ([(k, x)], rest)
                      | _ => None
                      end
                  | None => None
                  end
              | _ => None
              end
          | None => None
          end
      | _ => None
      end
  end.

(** [JSON.parse(text)]: one value, then nothing but white space; anything
    else is a [SyntaxError]. *)
Definition parse (text : jsstring) : Completion value :=
  match parse_value (S (length text)) text with
  | Some (v, rest) =>
      match skip_ws rest with
      | [] => Normal v
      | _ :: _ => Throw SyntaxError
      end
  | None => Throw SyntaxError
  end.

(** *** Todo records as JSON values *)

(** The object literal of line 94 lists [value], [id], [completed] in this
    order, and the spreads of lines 107 and 124 keep it. *)
Definition of_todo (todo : Todo.t) : value :=
  Obj [(js "value", Str (Todo.value todo));
       (js "id", Str (Todo.id todo));
       (js "completed", Bool (Todo.completed todo))].

Definition of_todos (todos : list Todo.t) : value := Arr (map of_todo todos).

(** Property read [o.k]; a later duplicate key wins, as in [JSON.parse]. *)
Fixpoint get (k : jsstring) (ms : list (jsstring * value)) : option value :=
  match ms with
  | [] => None
  | (k', x) :: r =>
      match get k r with
      | Some y => Some y
      | None => if strict_eq k' k then Some x else None
      end
  end.

(** A parsed value seen as a todo record; [None] when it is not an object
    with a string [value], a string [id] and a boolean [completed]. *)
Definition to_todo (v : value) : option Todo.t :=
  match v with
  | Obj ms =>
      match get (js "value") ms, get (js "id") ms, get (js "completed") ms with
      | Some (Str v), Some (Str i), Some (Bool c) =>
          Some {| Todo.value := v; Todo.id := i; Todo.completed := c |}
      | _, _, _ => None
      end
  | _ => None
  end.

Fixpoint to_todo_list (l : list value) : option (list Todo.t) :=
  match l with
  | [] => Some []
  | x :: r =>
      match to_todo x, to_todo_list r with
      | Some todo, Some todos => Some (todo :: todos)
      | _, _ => None
      end
  end.

Definition to_todos (v : value) : option (list Todo.t) :=
  match v with
  | Arr l => to_todo_list l
  | _ => None
  end.
(** *** Notions used to reason about the two *)

(** What [parse_string_body] answers after reading the character [c], in
    any of its three spellings (plain, simple escape, [\uXXXX]). *)
Definition continue (c : N) (tail : jsstring) : option (jsstring * jsstring) :=
  match parse_string_body tail with
  | Some (str, rest) => Some (c :: str, rest)
  | None => None
  end.

(** The first character of a serialized value. *)
Definition opens_value (c : N) : Prop :=
  c = 110 \/ c = 116 \/ c = 102 \/ c = 34 \/ c = 91 \/ c = 123.

(** One member of a serialized object. *)
Definition member_text (m : jsstring * value) : jsstring :=
  let '(k, x) := m in quote k ++ 58 :: stringify x.
End JSON.

(** ** The page *)

(** The [li] built by [createTodoItemEl]: its [data-id], the icon class of
    the toggle, the extra class of the editable region and that region's
    text. *)
Record Li := {
  li_dataset_id : jsstring;
  li_toggle_class : jsstring;
  li_value_class : jsstring;
  li_value_textContent : jsstring
}.

(** [createTodoItemEl] (lines 18-39) *)
Definition createTodoItemEl (todo : Todo.t) : Li :=
  {| li_dataset_id := Todo.id todo;
     li_toggle_class :=
       if Todo.completed todo then js "bx-check-square" else js "bx-square";
     li_value_class := if Todo.completed todo then js "line-through" else js "";
     li_value_textContent := Todo.value todo |}.

(** What the script does to the world outside its own variables. *)
Inductive Effect :=
| setItem (key text : jsstring)
| rendered (count : jsstring) (rows : list Li).

Record App_state := {
  todos : list Todo.t;
  localStorage : gmap jsstring jsstring;
  location_hash : jsstring;
  inputEl_value : jsstring;
  countEl_innerHTML : jsstring;
  listEl_children : list Li;
  effects : list Effect
}.

Definition LOCAL_STORAGE_KEY : jsstring := js "todos".

(** [getURLHash] (line 3): [hash.replace(/^#\//, '')] *)
Definition getURLHash (hash : jsstring) : jsstring :=
  match hash with
  | 35%N :: 47%N :: r => r
  | _ => hash
  end.

(** The assignment [todos = l]. *)
Definition set_todos (l : list Todo.t) (st : App_state) : App_state :=
  {| todos := l;
     localStorage := localStorage st;
     location_hash := location_hash st;
     inputEl_value := inputEl_value st;
     countEl_innerHTML := countEl_innerHTML st;
     listEl_children := listEl_children st;
     effects := effects st |}.

(** [saveTodos] (lines 51-54) *)
Definition saveTodos (st : App_state) : App_state :=
  let text := JSON.stringify (JSON.of_todos (todos st)) in
  {| todos := todos st;
     localStorage := <[LOCAL_STORAGE_KEY := text]> (localStorage st);
     location_hash := location_hash st;
     inputEl_value := inputEl_value st;
     countEl_innerHTML := countEl_innerHTML st;
     listEl_children := listEl_children st;
     effects := effects st ++ [setItem LOCAL_STORAGE_KEY text] |}.

(** The array handed to [replaceChildren] (lines 61-64). *)
Definition filterTodos (filter : jsstring) (todos : list Todo.t) : list Todo.t :=
  if strict_eq filter (js "active") then
    List.filter (fun todo => negb (Todo.completed todo)) todos
  else if strict_eq filter (js "completed") then
    List.filter (fun todo => Todo.completed todo) todos
  else todos.

(** [renderTodos] (lines 56-83) *)
Definition renderTodos (st : App_state) : App_state :=
  let filter := getURLHash (location_hash st) in
  let count :=
    number_to_string (length (filterNotCompletedTodos (todos st)))
    ++ js " items left" in
  let rows := map createTodoItemEl (filterTodos filter (todos st)) in
  {| todos := todos st;
     localStorage := localStorage st;
     location_hash := location_hash st;
     inputEl_value := inputEl_value st;
     countEl_innerHTML := count;
     listEl_children := rows;
     effects := effects st ++ [rendered count rows] |}.

(** The value [JSON.parse(localStorage.getItem(KEY) || '[]')]: [getItem]
    answers [null] for a missing key, and [null] and the empty string are
    both falsy. *)
Definition stored_text (storage : gmap jsstring jsstring) : jsstring :=
  match storage !! LOCAL_STORAGE_KEY with
  | Some (c :: r) => c :: r
  | Some [] | None => js "[]"
  end.

(** The collection held by the storage slot: [Throw] when the text is not
    JSON, [Normal None] when it is JSON but not an array of todo records. *)
Definition stored_todos (storage : gmap jsstring jsstring)
  : Completion (option (list Todo.t)) :=
  let* v := JSON.parse (stored_text storage) in
  Normal (JSON.to_todos v).

(** [readTodosInStorage] (lines 87-89) *)
Definition readTodosInStorage (st : App_state) : Completion (option App_state) :=
  let* l := stored_todos (localStorage st) in
  Normal (option_map (fun l => set_todos l st) l).

(** The only listener for ['save'] (lines 129-132);
    [eventTarget.dispatchEvent(new CustomEvent('save'))] runs it at once. *)
Definition save_listener (st : App_state) : App_state :=
  renderTodos (saveTodos st).

(** ** Events *)

Record KeyboardEvent := {
  key : jsstring;
  keyCode : N;
  shiftKey : bool
}.

(** An element with a [data-id]: [el.dataset.id], and the text of
    [el.querySelector('[data-todo="value"]')] when there is such a
    descendant. *)
Record Row := {
  dataset_id : jsstring;
  value_region : option jsstring
}.

(** The target of an event inside the list: its [data-todo] attribute and
    [e.target.closest('[data-id]')]. *)
Record Target := {
  data_todo : option jsstring;
  closest_row : option Row
}.

(** [e.target.matches('[data-todo="v"]')] *)
Definition matches (target : Target) (v : jsstring) : bool :=
  bool_decide (data_todo target = Some v).

(** What a listener leaves behind. *)
Record Outcome := {
  after : App_state;
  uncaught : list Error;
  defaultPrevented : bool
}.

Definition returned (st : App_state) : Outcome :=
  {| after := st; uncaught := []; defaultPrevented := false |}.

Definition threw (st : App_state) (e : Error) : Outcome :=
  {| after := st; uncaught := [e]; defaultPrevented := false |}.

(** [el.dataset.id] *)
Definition el_dataset_id (el : option Row) : Completion jsstring :=
  match el with
  | Some row => Normal (dataset_id row)
  | None => Throw TypeError
  end.

(** [el.querySelector('[data-todo="value"]').textContent] *)
Definition el_value_textContent (el : option Row) : Completion jsstring :=
  match el with
  | Some row =>
      match value_region row with
      | Some text => Normal text
      | None => Throw TypeError
      end
  | None => Throw TypeError
  end.

(** The [keyup] listener of the input (lines 92-99); [uuid] is what
    [crypto.randomUUID()] answers when asked. *)
Definition input_keyup_listener (event : KeyboardEvent) (uuid : jsstring)
    (st : App_state) : Outcome :=
  if (strict_eq (key event) (js "Enter") || (keyCode event =? 13)%N)
     && negb (strict_eq (trim (inputEl_value st)) (js ""))
  then
    let newTodo :=
      {| Todo.value := inputEl_value st; Todo.id := uuid; Todo.completed := false |} in
    let st := set_todos (todos st ++ [newTodo]) st in
    let todoEl := createTodoItemEl newTodo in
    returned (save_listener st)
  else returned st.

(** [delegate] (lines 8-12), for selectors of the form [[data-todo="v"]]. *)
Definition delegate (v : jsstring) (handler : Target -> App_state -> Outcome)
    (target : Target) (st : App_state) : Outcome :=
  if matches target v then handler target st else returned st.

(** The toggle handler (lines 105-109). *)
Definition toggle_handler (target : Target) (st : App_state) : Outcome :=
  let el := closest_row target in
  match Array_map
          (fun todo =>
             let* i := el_dataset_id el in
             Normal (if strict_eq (Todo.id todo) i
                     then Todo.with_completed todo (negb (Todo.completed todo))
                     else todo))
          (todos st) with
  | Normal l => returned (save_listener (set_todos l st))
  | Throw e => threw st e
  end.

(** The remove handler (lines 112-116). *)
Definition remove_handler (target : Target) (st : App_state) : Outcome :=
  let el := closest_row target in
  match Array_filter
          (fun todo =>
             let* i := el_dataset_id el in
             Normal (negb (strict_eq (Todo.id todo) i)))
          (todos st) with
  | Normal l => returned (save_listener (set_todos l st))
  | Throw e => threw st e
  end.

(** The edit handler (lines 119-127).  [event] is the free variable of
    line 121, which the browser resolves to [window.event]; [e] is the
    handler's own parameter. *)
Definition edit_handler (event e : KeyboardEvent) (target : Target)
    (st : App_state) : Outcome :=
  let el := closest_row target in
  if (keyCode event =? 13)%N then
    (* e.preventDefault() *)
    match
      (let* content := el_value_textContent el in
       Array_map
         (fun todo =>
            let* i := el_dataset_id el in
            Normal (if strict_eq (Todo.id todo) i
                    then Todo.with_value todo content
                    else todo))
         (todos st))
    with
    | Normal l =>
        {| after := save_listener (set_todos l st);
           uncaught := [];
           defaultPrevented := true |}
    | Throw err =>
        {| after := st; uncaught := [err]; defaultPrevented := true |}
    end
  else returned st.

(** What the browser delivers to the page. *)
Inductive Event :=
| input_typed (text : jsstring)
| input_keyup (e : KeyboardEvent) (uuid : jsstring)
| list_click (target : Target)
| list_keydown (e : KeyboardEvent) (target : Target)
| hashchange (hash : jsstring).

(** Two listeners run one after the other; an error in the first does not
    stop the second. *)
Definition and_then (first : Outcome) (second : App_state -> Outcome) : Outcome :=
  let o := second (after first) in
  {| after := after o;
     uncaught := uncaught first ++ uncaught o;
     defaultPrevented := defaultPrevented first || defaultPrevented o |}.

(** One event, through the listeners in the order [App] registers them.
    While a listener runs, [window.event] is the event being dispatched. *)
Definition dispatch (ev : Event) (st : App_state) : Outcome :=
  match ev with
  | input_typed text =>
      returned
        {| todos := todos st;
           localStorage := localStorage st;
           location_hash := location_hash st;
           inputEl_value := text;
           countEl_innerHTML := countEl_innerHTML st;
           listEl_children := listEl_children st;
           effects := effects st |}
  | input_keyup e uuid => input_keyup_listener e uuid st
  | list_click target =>
      and_then (delegate (js "toggle") toggle_handler target st)
               (delegate (js "remove") remove_handler target)
  | list_keydown e target =>
      delegate (js "value") (edit_handler e e) target st
  | hashchange hash =>
      returned
        (renderTodos
           {| todos := todos st;
              localStorage := localStorage st;
              location_hash := hash;
              inputEl_value := inputEl_value st;
              countEl_innerHTML := countEl_innerHTML st;
              listEl_children := listEl_children st;
              effects := effects st |})
  end.

(** The state after a run of events. *)
Definition run (evs : list Event) (st : App_state) : App_state :=
  fold_left (fun st ev => after (dispatch ev st)) evs st.

(** The page before [App] runs: [let todos = []] (line 44), an empty input
    and an empty list. *)
Definition page (storage : gmap jsstring jsstring) (hash : jsstring) : App_state :=
  {| todos := [];
     localStorage := storage;
     location_hash := hash;
     inputEl_value := js "";
     countEl_innerHTML := js "";
     listEl_children := [];
     effects := [] |}.

(** [App()] (lines 138-139) *)
Definition App (storage : gmap jsstring jsstring) (hash : jsstring)
  : Completion (option App_state) :=
  let* st := readTodosInStorage (page storage hash) in
  Normal (option_map renderTodos st).

(** ** The rules of the specification, in its own words *)

(** The filtering rule of the List View: [active] keeps the items that are
    not completed, [completed] those that are, anything else keeps all. *)
Definition spec_visible (selected : jsstring) (items : list Todo.t) : list Todo.t :=
  if decide (selected = js "active") then
    filter (fun item => Todo.completed item = false) items
  else if decide (selected = js "completed") then
    filter (fun item => Todo.completed item = true) items
  else items.

(** The remaining count: the items of the whole collection that are not
    completed. *)
Definition spec_remaining (items : list Todo.t) : nat :=
  length (filter (fun item => Todo.completed item = false) items).

(** The state with another URL fragment. *)
Definition with_hash (hash : jsstring) (st : App_state) : App_state :=
  {| todos := todos st;
     localStorage := localStorage st;
     location_hash := hash;
     inputEl_value := inputEl_value st;
     countEl_innerHTML := countEl_innerHTML st;
     listEl_children := listEl_children st;
     effects := effects st |}.

(** [event.key === 'Enter' || event.keyCode === 13] *)
Definition is_enter (e : KeyboardEvent) : bool :=
  strict_eq (key e) (js "Enter") || (keyCode e =? 13)%N.

(** ** Sample data *)

Definition Enter : KeyboardEvent :=
  {| key := js "Enter"; keyCode := 13; shiftKey := false |}.

Definition Shift_Enter : KeyboardEvent :=
  {| key := js "Enter"; keyCode := 13; shiftKey := true |}.

Definition letter_a : KeyboardEvent :=
  {| key := js "a"; keyCode := 65; shiftKey := false |}.

Definition item_A : Todo.t :=
  {| Todo.value := js "A"; Todo.id := js "id-a"; Todo.completed := false |}.
Definition item_B : Todo.t :=
  {| Todo.value := js "B"; Todo.id := js "id-b"; Todo.completed := true |}.
Definition item_C : Todo.t :=
  {| Todo.value := js "C"; Todo.id := js "id-c"; Todo.completed := false |}.

(** A page showing A, B and C under the fragment [hash]. *)
Definition page_ABC (hash : jsstring) : App_state :=
  renderTodos (set_todos [item_A; item_B; item_C] (page ∅ hash)).

(** The same page with [text] typed into the input. *)
Definition page_ABC_typed (text : jsstring) : App_state :=
  after (dispatch (input_typed text) (page_ABC (js ""))).

(** The row of B as rendered, with [text] in its editable region. *)
Definition row_B (text : jsstring) : Row :=
  {| dataset_id := js "id-b"; value_region := Some text |}.

Definition toggle_of (row : option Row) : Target :=
  {| data_todo := Some (js "toggle"); closest_row := row |}.
Definition remove_of (row : option Row) : Target :=
  {| data_todo := Some (js "remove"); closest_row := row |}.
Definition value_of (row : option Row) : Target :=
  {| data_todo := Some (js "value"); closest_row := row |}.

(** ** Reachable pages *)

(** [crypto.randomUUID()] answers an id that no item of the collection
    carries. *)
Definition draws_fresh_id (ev : Event) (st : App_state) : Prop :=
  match ev with
  | input_keyup _ uuid => uuid ∉ map Todo.id (todos st)
  | _ => True
  end.

(** The pages reached from an empty collection by events whose generated
    ids are fresh. *)
Inductive reachable : App_state -> Prop :=
| reachable_empty st :
    todos st = [] -> reachable st
| reachable_dispatch ev st :
    reachable st -> draws_fresh_id ev st -> reachable (after (dispatch ev st)).

(** ** Operations *)

(** The events that are one of the four transitions of the controller: an
    Enter keyup on a non-blank input (Add), a click on the toggle or remove
    icon of a row (Toggle, Remove), a keydown with key code 13 in the
    editable region of a row (Edit-commit). *)
Definition is_operation (ev : Event) (st : App_state) : bool :=
  match ev with
  | input_keyup e _ =>
      is_enter e && negb (strict_eq (trim (inputEl_value st)) (js ""))
  | list_click target =>
      (matches target (js "toggle") || matches target (js "remove"))
      && match closest_row target with Some _ => true | None => false end
  | list_keydown e target =>
      matches target (js "value") && (keyCode e =? 13)%N
      && match closest_row target with
         | Some row =>
             match value_region row with Some _ => true | None => false end
         | None => false
         end
  | input_typed _ | hashchange _ => false
  end.

(** Two items added to an empty page, the first then toggled. *)
Definition two_items : App_state :=
  run [input_typed (js "buy milk");
       input_keyup Enter (js "id-1");
       input_typed (js "walk the dog");
       input_keyup Enter (js "id-2");
       list_click (toggle_of (Some {| dataset_id := js "id-1";
                                      value_region := Some (js "buy milk") |}))]
      (page ∅ (js "")).

(** ** Notions for whole runs *)

(** The page with [text] in the input. *)
Definition with_input (text : jsstring) (st : App_state) : App_state :=
  {| todos := todos st;
     localStorage := localStorage st;
     location_hash := location_hash st;
     inputEl_value := text;
     countEl_innerHTML := countEl_innerHTML st;
     listEl_children := listEl_children st;
     effects := effects st |}.

(** The rows as last rendered and the counter are those of the collection
    under the fragment of the page. *)
Definition in_sync (st : App_state) : Prop :=
  listEl_children st
  = map createTodoItemEl (filterTodos (getURLHash (location_hash st)) (todos st))
  /\ countEl_innerHTML st
     = number_to_string (length (filterNotCompletedTodos (todos st)))
       ++ js " items left".

(** What of a row typing cannot change: its [data-id], the icon class of
    its toggle and the strike-through class of its text. *)
Definition row_frame (li : Li) : jsstring * jsstring * jsstring :=
  (li_dataset_id li, li_toggle_class li, li_value_class li).

(** Every id generated along the run is new when it is generated. *)
Fixpoint fresh_run (evs : list Event) (st : App_state) : Prop :=
  match evs with
  | [] => True
  | ev :: r => draws_fresh_id ev st /\ fresh_run r (after (dispatch ev st))
  end.

(** An event of the list whose target has no row, or a keydown whose row
    has no editable region. *)
Definition lacks_element (ev : Event) : Prop :=
  match ev with
  | list_click target => closest_row target = None
  | list_keydown _ target =>
      closest_row target = None
      \/ exists row, closest_row target = Some row /\ value_region row = None
  | _ => False
  end.

(** A row with its id but nothing editable inside. *)
Definition bare_row_B : Row :=
  {| dataset_id := js "id-b"; value_region := None |}.

(** The page as [App] leaves it on an empty storage. *)
Definition fresh_page : App_state := renderTodos (page ∅ (js "")).

(** Typing and adding two items, then looking at the open ones. *)
Definition a_session : list Event :=
  [input_typed (js "buy milk");
   input_keyup Enter (js "id-1");
   input_typed (js "walk the dog");
   input_keyup Enter (js "id-2");
   list_click (toggle_of (Some {| dataset_id := js "id-1";
                                  value_region := Some (js "buy milk") |}));
   hashchange (js "#/active")].

(** * Properties *)

(** ** Strings *)

Lemma strict_eq_true (a b : jsstring) : strict_eq a b = true <-> a = b.
Proof. unfold strict_eq. apply bool_decide_eq_true. Qed.

Lemma strict_eq_false (a b : jsstring) : strict_eq a b = false <-> a <> b.
Proof. unfold strict_eq. apply bool_decide_eq_false. Qed.

Lemma strict_eq_refl (a : jsstring) : strict_eq a a = true.
Proof. by apply strict_eq_true. Qed.

(** Every filter string is the fragment of some URL. *)
Lemma getURLHash_prefixed (selected : jsstring) :
  getURLHash (js "#/" ++ selected) = selected.
Proof. reflexivity. Qed.

Lemma trim_start_all_white (s : jsstring) :
  forallb is_white_space s = true -> trim_start s = [].
Proof.
  induction s as [|c r IH]; simpl; [done|].
  destruct (is_white_space c); simpl; [exact IH | discriminate].
Qed.

Lemma trim_start_nil_all_white (s : jsstring) :
  trim_start s = [] -> forallb is_white_space s = true.
Proof.
  induction s as [|c r IH]; simpl; [done|].
  destruct (is_white_space c); simpl; [exact IH | discriminate].
Qed.

(** The trimmed text is empty exactly when the text is empty or all white
    space. *)
Lemma trim_empty_iff (s : jsstring) :
  trim s = [] <-> forallb is_white_space s = true.
Proof.
  unfold trim, trim_end. split.
  - intros H. apply trim_start_nil_all_white.
    destruct (trim_start s) as [|c r] eqn:E; [done|].
    assert (Hr : trim_start (rev (c :: r)) = []).
    { apply (f_equal (@rev N)) in H. rewrite rev_involutive in H. exact H. }
    apply trim_start_nil_all_white in Hr.
    rewrite forallb_forall in Hr.
    assert (Hc : is_white_space c = true).
    { apply Hr. rewrite <- in_rev. by left. }
    destruct s as [|c' r']; [discriminate|]. simpl in E.
    destruct (is_white_space c') eqn:E'.
    + exfalso. clear -E Hc.
      induction r' as [|x r' IH]; simpl in E; [discriminate|].
      destruct (is_white_space x) eqn:Ex; [by apply IH|].
      injection E as -> _. congruence.
    + injection E as -> _. congruence.
  - intros H. by rewrite (trim_start_all_white s H).
Qed.

(** ** Arrays *)

Lemma Array_map_total {A B} (f : A -> B) (l : list A) :
  Array_map (fun x => Normal (f x)) l = Normal (map f l).
Proof. induction l as [|x r IH]; simpl; [done|]. by rewrite IH. Qed.

Lemma Array_filter_total {A} (f : A -> bool) (l : list A) :
  Array_filter (fun x => Normal (f x)) l = Normal (List.filter f l).
Proof.
  induction l as [|x r IH]; simpl; [done|]. rewrite IH. simpl.
  by destruct (f x).
Qed.

(** A callback that throws on every call throws as soon as there is an
    element. *)
Lemma Array_map_throws {A B} (e : Error) (l : list A) :
  Array_map (fun _ => @Throw B e) l = match l with [] => Normal [] | _ :: _ => Throw e end.
Proof. by destruct l. Qed.

Lemma Array_filter_throws {A} (e : Error) (l : list A) :
  Array_filter (fun _ => Throw e) l = match l with [] => Normal [] | _ :: _ => Throw e end.
Proof. by destruct l. Qed.

(** The script's boolean filters against the decidable-predicate ones. *)
Lemma List_filter_decide {A} (f : A -> bool) (P : A -> Prop)
    `{!forall x, Decision (P x)} (l : list A) :
  (forall x, f x = true <-> P x) -> List.filter f l = filter P l.
Proof.
  intros Hf. induction l as [|x r IH]; simpl; [done|].
  rewrite filter_cons, IH.
  destruct (decide (P x)) as [HP|HP].
  - apply Hf in HP. by rewrite HP.
  - destruct (f x) eqn:E; [|done]. apply Hf in E. contradiction.
Qed.

(** ** Saving and rendering *)

Lemma todos_saveTodos st : todos (saveTodos st) = todos st.
Proof. reflexivity. Qed.

Lemma todos_renderTodos st : todos (renderTodos st) = todos st.
Proof. reflexivity. Qed.

Lemma todos_save_listener st : todos (save_listener st) = todos st.
Proof. reflexivity. Qed.

Lemma filterTodos_spec (selected : jsstring) (l : list Todo.t) :
  filterTodos selected l = spec_visible selected l.
Proof.
  unfold filterTodos, spec_visible, strict_eq.
  destruct (decide (selected = js "active")) as [E|E].
  - rewrite bool_decide_eq_true_2 by done.
    apply List_filter_decide. intros x. by destruct (Todo.completed x).
  - rewrite bool_decide_eq_false_2 by done.
    destruct (decide (selected = js "completed")) as [E'|E'].
    + rewrite bool_decide_eq_true_2 by done.
      apply List_filter_decide. intros x. by destruct (Todo.completed x).
    + by rewrite bool_decide_eq_false_2 by done.
Qed.

Lemma spec_visible_sublist (selected : jsstring) (l : list Todo.t) :
  sublist (spec_visible selected l) l.
Proof.
  unfold spec_visible. repeat case_decide; try apply sublist_filter. done.
Qed.

(** C4: the rows on display after a render are the rows of the items the
    filtering rule selects from the collection ([active]: those not
    completed; [completed]: those completed; any other fragment, the empty
    one included: all of them), one row per selected item, carrying its id
    and text, and in the order of the collection. *)
Theorem rendered_rows_follow_filter (st : App_state) :
  let selected := getURLHash (location_hash st) in
  let shown := spec_visible selected (todos st) in
  listEl_children (renderTodos st) = map createTodoItemEl shown
  /\ map li_dataset_id (listEl_children (renderTodos st)) = map Todo.id shown
  /\ map li_value_textContent (listEl_children (renderTodos st)) = map Todo.value shown
  /\ sublist shown (todos st)
  /\ spec_visible (js "active") (todos st)
     = filter (fun item => Todo.completed item = false) (todos st)
  /\ spec_visible (js "completed") (todos st)
     = filter (fun item => Todo.completed item = true) (todos st)
  /\ spec_visible (js "all") (todos st) = todos st
  /\ spec_visible (js "") (todos st) = todos st
  /\ (selected <> js "active" -> selected <> js "completed" -> shown = todos st).
Proof.
  intros selected shown. subst shown.
  assert (Hrows : listEl_children (renderTodos st)
                  = map createTodoItemEl (spec_visible selected (todos st))).
  { unfold renderTodos. simpl. by rewrite filterTodos_spec. }
  rewrite Hrows. rewrite !map_map. simpl.
  repeat split; try done.
  - apply spec_visible_sublist.
  - intros H1 H2. unfold spec_visible. by repeat case_decide.
Qed.

(** The page showing A (open), B (completed) and C (open): [active] shows
    A and C, [completed] shows B, [all] and an unknown fragment show all
    three. *)
Example filtering_ABC :
  map li_value_textContent (listEl_children (page_ABC (js "#/active")))
  = [js "A"; js "C"]
  /\ map li_value_textContent (listEl_children (page_ABC (js "#/completed")))
     = [js "B"]
  /\ map li_value_textContent (listEl_children (page_ABC (js "#/all")))
     = [js "A"; js "B"; js "C"]
  /\ map li_value_textContent (listEl_children (page_ABC (js "#/done")))
     = [js "A"; js "B"; js "C"]
  /\ map li_value_textContent (listEl_children (page_ABC (js "")))
     = [js "A"; js "B"; js "C"].
Proof. repeat split. Qed.

Lemma filterNotCompletedTodos_length (l : list Todo.t) :
  length (filterNotCompletedTodos l) = spec_remaining l.
Proof.
  unfold filterNotCompletedTodos, spec_remaining. f_equal.
  apply List_filter_decide. intros x. by destruct (Todo.completed x).
Qed.

(** C5: the counter shows the number of items of the whole collection that
    are not completed, whatever the fragment; for A (open), B (completed),
    C (open) it reads "2 items left" under [all], [active] and
    [completed]. *)
Theorem remaining_count_ignores_filter (st : App_state) (hash : jsstring) :
  countEl_innerHTML (renderTodos st)
  = number_to_string (spec_remaining (todos st)) ++ js " items left"
  /\ countEl_innerHTML (renderTodos (with_hash hash st))
     = countEl_innerHTML (renderTodos st)
  /\ countEl_innerHTML (page_ABC (js "#/all")) = js "2 items left"
  /\ countEl_innerHTML (page_ABC (js "#/active")) = js "2 items left"
  /\ countEl_innerHTML (page_ABC (js "#/completed")) = js "2 items left".
Proof.
  repeat split; try reflexivity.
  unfold renderTodos. simpl. by rewrite filterNotCompletedTodos_length.
Qed.

(** ** The handlers when the row is found *)

Lemma toggle_handler_found target row st :
  closest_row target = Some row ->
  toggle_handler target st
  = returned (save_listener (set_todos
      (map (fun todo => if strict_eq (Todo.id todo) (dataset_id row)
                        then Todo.with_completed todo (negb (Todo.completed todo))
                        else todo) (todos st)) st)).
Proof.
  intros H. unfold toggle_handler. rewrite H. simpl.
  by rewrite Array_map_total.
Qed.

Lemma remove_handler_found target row st :
  closest_row target = Some row ->
  remove_handler target st
  = returned (save_listener (set_todos
      (List.filter (fun todo => negb (strict_eq (Todo.id todo) (dataset_id row)))
                   (todos st)) st)).
Proof.
  intros H. unfold remove_handler. rewrite H. simpl.
  by rewrite Array_filter_total.
Qed.

Lemma edit_handler_found event e target row content st :
  closest_row target = Some row ->
  value_region row = Some content ->
  keyCode event = 13%N ->
  edit_handler event e target st
  = {| after := save_listener (set_todos
         (map (fun todo => if strict_eq (Todo.id todo) (dataset_id row)
                           then Todo.with_value todo content
                           else todo) (todos st)) st);
       uncaught := [];
       defaultPrevented := true |}.
Proof.
  intros H Hv Hk. unfold edit_handler. rewrite H, Hk. simpl. rewrite Hv. simpl.
  by rewrite Array_map_total.
Qed.

(** A click on a toggle runs the toggle handler only, a click on a remove
    icon the remove handler only. *)
Lemma click_on_toggle target st :
  data_todo target = Some (js "toggle") ->
  dispatch (list_click target) st
  = and_then (toggle_handler target st) returned.
Proof.
  intros H. unfold dispatch, delegate, matches. by rewrite H.
Qed.

Lemma click_on_remove target st :
  data_todo target = Some (js "remove") ->
  dispatch (list_click target) st
  = and_then (returned st) (remove_handler target).
Proof.
  intros H. unfold dispatch, delegate, matches. by rewrite H.
Qed.

Lemma keydown_on_value e target st :
  data_todo target = Some (js "value") ->
  dispatch (list_keydown e target) st = edit_handler e e target st.
Proof.
  intros H. unfold dispatch, delegate, matches. by rewrite H.
Qed.

Lemma toggle_item_twice (i : jsstring) (l : list Todo.t) :
  let f := fun todo => if strict_eq (Todo.id todo) i
                       then Todo.with_completed todo (negb (Todo.completed todo))
                       else todo in
  map f (map f l) = l.
Proof.
  intros f. rewrite map_map. rewrite <- (map_id l) at 2.
  apply map_ext. intros [v j c]. unfold f. simpl.
  destruct (strict_eq j i) eqn:E; simpl; [|by rewrite E].
  rewrite E. unfold Todo.with_completed. simpl. by rewrite negb_involutive.
Qed.

(** C7: a click on the toggle of the row with id [i] gives a collection of
    the same length and order in which each item with id [i] keeps its id
    and value and has its completed flag inverted and every other item is
    as before; a second click on the same row gives back the first
    collection. *)
Theorem toggle_inverts_only_matching target row st :
  data_todo target = Some (js "toggle") ->
  closest_row target = Some row ->
  let once := after (dispatch (list_click target) st) in
  let twice := after (dispatch (list_click target) once) in
  Forall2 (fun old new =>
             (Todo.id old = dataset_id row ->
              new = {| Todo.value := Todo.value old;
                       Todo.id := Todo.id old;
                       Todo.completed := negb (Todo.completed old) |})
             /\ (Todo.id old <> dataset_id row -> new = old))
          (todos st) (todos once)
  /\ map Todo.id (todos once) = map Todo.id (todos st)
  /\ map Todo.value (todos once) = map Todo.value (todos st)
  /\ todos twice = todos st.
Proof.
  intros Hsel Hrow once twice. subst twice once.
  rewrite !(click_on_toggle _ _ Hsel), !(toggle_handler_found _ _ _ Hrow).
  simpl. split; [|split; [|split]].
  - induction (todos st) as [|[v j c] r IH]; simpl; constructor; [|exact IH].
    simpl. split.
    + intros ->. by rewrite strict_eq_refl.
    + intros Hne. apply strict_eq_false in Hne. by rewrite Hne.
  - rewrite map_map. apply map_ext. intros todo.
    by destruct (strict_eq (Todo.id todo) (dataset_id row)).
  - rewrite map_map. apply map_ext. intros todo.
    by destruct (strict_eq (Todo.id todo) (dataset_id row)).
  - apply toggle_item_twice.
Qed.

(** The theorem above on the page showing A, B, C: B is reopened, and
    closed again by the second click. *)
Lemma toggle_inverts_only_matching_witness :
  data_todo (toggle_of (Some (row_B (js "B")))) = Some (js "toggle")
  /\ closest_row (toggle_of (Some (row_B (js "B")))) = Some (row_B (js "B"))
  /\ todos (after (dispatch (list_click (toggle_of (Some (row_B (js "B")))))
                            (page_ABC (js ""))))
     = [item_A; Todo.with_completed item_B false; item_C]
  /\ todos (after (dispatch (list_click (toggle_of (Some (row_B (js "B")))))
       (after (dispatch (list_click (toggle_of (Some (row_B (js "B")))))
                        (page_ABC (js ""))))))
     = todos (page_ABC (js "")).
Proof.
  split; [reflexivity|]. split; [reflexivity|]. split; [reflexivity|].
  destruct (toggle_inverts_only_matching
              (toggle_of (Some (row_B (js "B")))) (row_B (js "B"))
              (page_ABC (js "")) eq_refl eq_refl) as (_ & _ & _ & H).
  exact H.
Defined.

(** C8: a click on the remove icon of the row with id [i] leaves exactly
    the items whose id is not [i], in their order; when no item has id [i]
    the collection is as before. *)
Theorem remove_drops_only_matching target row st :
  data_todo target = Some (js "remove") ->
  closest_row target = Some row ->
  let left := todos (after (dispatch (list_click target) st)) in
  left = filter (fun item => Todo.id item <> dataset_id row) (todos st)
  /\ sublist left (todos st)
  /\ (forall item, item ∈ left <-> item ∈ todos st /\ Todo.id item <> dataset_id row)
  /\ (dataset_id row ∉ map Todo.id (todos st) -> left = todos st).
Proof.
  intros Hsel Hrow left.
  assert (E : left = filter (fun item => Todo.id item <> dataset_id row) (todos st)).
  { subst left. rewrite (click_on_remove _ _ Hsel). simpl.
    rewrite (remove_handler_found _ _ _ Hrow). simpl.
    apply List_filter_decide. intros x. rewrite negb_true_iff.
    apply strict_eq_false. }
  split; [exact E|]. rewrite E. split; [apply sublist_filter|]. split.
  - intros item. rewrite list_elem_of_filter. tauto.
  - intros Hnot. clear E left. induction (todos st) as [|x r IH]; [done|].
    rewrite filter_cons. simpl in Hnot.
    rewrite not_elem_of_cons in Hnot. destruct Hnot as [Hx Hr].
    destruct (decide (Todo.id x <> dataset_id row)) as [_|Hc].
    + f_equal. by apply IH.
    + exfalso. apply Hc. congruence.
Qed.

Lemma remove_drops_only_matching_witness :
  data_todo (remove_of (Some (row_B (js "B")))) = Some (js "remove")
  /\ closest_row (remove_of (Some (row_B (js "B")))) = Some (row_B (js "B"))
  /\ todos (after (dispatch (list_click (remove_of (Some (row_B (js "B")))))
                            (page_ABC (js ""))))
     = filter (fun item => Todo.id item <> js "id-b") [item_A; item_B; item_C].
Proof.
  split; [reflexivity|]. split; [reflexivity|].
  destruct (remove_drops_only_matching
              (remove_of (Some (row_B (js "B")))) (row_B (js "B"))
              (page_ABC (js "")) eq_refl eq_refl) as (H & _).
  exact H.
Defined.

(** ** Adding *)

Lemma input_keyup_accepts e uuid st :
  is_enter e = true ->
  trim (inputEl_value st) <> [] ->
  input_keyup_listener e uuid st
  = returned (save_listener (set_todos
      (todos st ++ [{| Todo.value := inputEl_value st;
                       Todo.id := uuid;
                       Todo.completed := false |}]) st)).
Proof.
  intros He Ht. unfold input_keyup_listener. fold (is_enter e). rewrite He.
  change (js "") with (@nil N). apply strict_eq_false in Ht. by rewrite Ht.
Qed.

Lemma input_keyup_rejects e uuid st :
  is_enter e = false \/ trim (inputEl_value st) = [] ->
  input_keyup_listener e uuid st = returned st.
Proof.
  intros H. unfold input_keyup_listener. fold (is_enter e).
  destruct H as [->|Ht]; [done|].
  change (js "") with (@nil N). apply strict_eq_true in Ht. rewrite Ht.
  by rewrite andb_false_r.
Qed.

(** C6: on an Enter keyup in the input, a text that is empty or all white
    space leaves the whole page as it was; otherwise the collection becomes
    the old collection followed by one new item, whose id is the one just
    generated and whose completed flag is false. *)
Theorem add_appends_one_or_rejects e uuid st :
  is_enter e = true ->
  let o := dispatch (input_keyup e uuid) st in
  (trim (inputEl_value st) = [] -> o = returned st)
  /\ (forallb is_white_space (inputEl_value st) = true -> o = returned st)
  /\ (trim (inputEl_value st) <> [] ->
      exists item,
        todos (after o) = todos st ++ [item]
        /\ Todo.id item = uuid
        /\ Todo.completed item = false).
Proof.
  intros He o. subst o. simpl. split; [|split].
  - intros Ht. rewrite input_keyup_rejects by (by right). done.
  - intros Hw. apply trim_empty_iff in Hw.
    rewrite input_keyup_rejects by (by right). done.
  - intros Ht. rewrite (input_keyup_accepts _ _ _ He Ht). simpl. eauto.
Qed.

Lemma add_appends_one_or_rejects_witness :
  is_enter Enter = true
  /\ trim (inputEl_value (page_ABC_typed (js "buy milk"))) <> []
  /\ exists item,
       todos (after (dispatch (input_keyup Enter (js "id-d"))
                              (page_ABC_typed (js "buy milk"))))
       = todos (page_ABC_typed (js "buy milk")) ++ [item]
       /\ Todo.id item = js "id-d"
       /\ Todo.completed item = false.
Proof.
  split; [reflexivity|]. split; [discriminate|].
  destruct (add_appends_one_or_rejects Enter (js "id-d")
              (page_ABC_typed (js "buy milk")) eq_refl) as (_ & _ & H).
  apply H. discriminate.
Defined.

(** C10: the value of the item added is the text of the input as it
    stands, white space included; only the test for emptiness looks at the
    trimmed text. *)
Theorem add_stores_raw_text e uuid st :
  is_enter e = true ->
  trim (inputEl_value st) <> [] ->
  todos (after (dispatch (input_keyup e uuid) st))
  = todos st ++ [{| Todo.value := inputEl_value st;
                    Todo.id := uuid;
                    Todo.completed := false |}].
Proof.
  intros He Ht. simpl. by rewrite (input_keyup_accepts _ _ _ He Ht).
Qed.

(** With [" x "] typed, the item added has the value [" x "]. *)
Lemma add_stores_raw_text_witness :
  is_enter Enter = true
  /\ trim (inputEl_value (page_ABC_typed (js " x "))) = js "x"
  /\ todos (after (dispatch (input_keyup Enter (js "id-d"))
                            (page_ABC_typed (js " x "))))
     = [item_A; item_B; item_C;
        {| Todo.value := js " x "; Todo.id := js "id-d"; Todo.completed := false |}].
Proof.
  split; [reflexivity|]. split; [reflexivity|].
  apply (add_stores_raw_text Enter (js "id-d") (page_ABC_typed (js " x "))).
  - reflexivity.
  - discriminate.
Defined.

(** ** Editing *)

(** C2: a keydown in the editable region of a row (row and region found)
    commits exactly when its key code is 13, whether or not Shift is held:
    then the default action is prevented and each item with the row's id
    gets the region's text as its value, keeping its id and completed
    flag, while every other item is as before; with any other key code the
    page is left as it was and the default action stands. *)
Theorem edit_commits_on_key_code_13 e target row content st :
  data_todo target = Some (js "value") ->
  closest_row target = Some row ->
  value_region row = Some content ->
  let o := dispatch (list_keydown e target) st in
  (keyCode e <> 13%N -> o = returned st)
  /\ (keyCode e = 13%N ->
      defaultPrevented o = true
      /\ uncaught o = []
      /\ Forall2 (fun old new =>
                    (Todo.id old = dataset_id row ->
                     new = {| Todo.value := content;
                              Todo.id := Todo.id old;
                              Todo.completed := Todo.completed old |})
                    /\ (Todo.id old <> dataset_id row -> new = old))
                 (todos st) (todos (after o))).
Proof.
  intros Hsel Hrow Hval o. subst o. rewrite (keydown_on_value _ _ _ Hsel).
  split.
  - intros Hk. unfold edit_handler. apply N.eqb_neq in Hk. by rewrite Hk.
  - intros Hk. rewrite (edit_handler_found _ _ _ _ _ _ Hrow Hval Hk). simpl.
    split; [done|]. split; [done|].
    induction (todos st) as [|[v j c] r IH]; simpl; constructor; [|exact IH].
    simpl. split.
    + intros ->. by rewrite strict_eq_refl.
    + intros Hne. apply strict_eq_false in Hne. by rewrite Hne.
Qed.

Lemma edit_commits_on_key_code_13_witness :
  data_todo (value_of (Some (row_B (js "new text")))) = Some (js "value")
  /\ closest_row (value_of (Some (row_B (js "new text"))))
     = Some (row_B (js "new text"))
  /\ value_region (row_B (js "new text")) = Some (js "new text")
  /\ dispatch (list_keydown letter_a (value_of (Some (row_B (js "new text")))))
              (page_ABC (js ""))
     = returned (page_ABC (js ""))
  /\ defaultPrevented
       (dispatch (list_keydown Enter (value_of (Some (row_B (js "new text")))))
                 (page_ABC (js ""))) = true.
Proof.
  split; [reflexivity|]. split; [reflexivity|]. split; [reflexivity|].
  split.
  - destruct (edit_commits_on_key_code_13 letter_a
                (value_of (Some (row_B (js "new text")))) (row_B (js "new text"))
                (js "new text") (page_ABC (js "")) eq_refl eq_refl eq_refl)
      as (H & _).
    apply H. discriminate.
  - destruct (edit_commits_on_key_code_13 Enter
                (value_of (Some (row_B (js "new text")))) (row_B (js "new text"))
                (js "new text") (page_ABC (js "")) eq_refl eq_refl eq_refl)
      as (_ & H).
    destruct (H eq_refl) as (Hp & _). exact Hp.
Defined.

(** Shift+Enter in the editable region of B commits the edit all the same:
    B gets the new text and the default action is prevented. *)
Lemma edit_commits_on_Shift_Enter :
  shiftKey Shift_Enter = true
  /\ todos (after (dispatch
       (list_keydown Shift_Enter (value_of (Some (row_B (js "new text")))))
       (page_ABC (js ""))))
     = [item_A; Todo.with_value item_B (js "new text"); item_C]
  /\ todos (after (dispatch
       (list_keydown Shift_Enter (value_of (Some (row_B (js "new text")))))
       (page_ABC (js ""))))
     <> todos (page_ABC (js ""))
  /\ defaultPrevented (dispatch
       (list_keydown Shift_Enter (value_of (Some (row_B (js "new text")))))
       (page_ABC (js ""))) = true.
Proof.
  split; [reflexivity|]. split; [reflexivity|]. split; [discriminate|].
  reflexivity.
Qed.

(** ** Events whose row is not found *)

Lemma toggle_handler_missing target st :
  closest_row target = None ->
  toggle_handler target st
  = match todos st with
    | [] => returned (save_listener (set_todos [] st))
    | _ :: _ => threw st TypeError
    end.
Proof.
  intros H. unfold toggle_handler. rewrite H. simpl.
  rewrite (Array_map_throws TypeError). by destruct (todos st).
Qed.

Lemma remove_handler_missing target st :
  closest_row target = None ->
  remove_handler target st
  = match todos st with
    | [] => returned (save_listener (set_todos [] st))
    | _ :: _ => threw st TypeError
    end.
Proof.
  intros H. unfold remove_handler. rewrite H. simpl.
  rewrite (Array_filter_throws TypeError). by destruct (todos st).
Qed.

Lemma edit_handler_missing event e target st :
  closest_row target = None ->
  edit_handler event e target st
  = if (keyCode event =? 13)%N
    then {| after := st; uncaught := [TypeError]; defaultPrevented := true |}
    else returned st.
Proof. intros H. unfold edit_handler. by rewrite H. Qed.

Lemma filterTodos_nil (selected : jsstring) : filterTodos selected [] = [].
Proof. unfold filterTodos. by repeat destruct (strict_eq _ _). Qed.

(** Saving the empty collection: the slot holds the text of the empty
    array, the list is empty and the counter reads zero. *)
Lemma save_listener_empty st :
  localStorage (save_listener (set_todos [] st)) !! LOCAL_STORAGE_KEY
  = Some (js "[]")
  /\ listEl_children (save_listener (set_todos [] st)) = []
  /\ countEl_innerHTML (save_listener (set_todos [] st)) = js "0 items left"
  /\ effects (save_listener (set_todos [] st))
     = effects st ++ [setItem LOCAL_STORAGE_KEY (js "[]");
                      rendered (js "0 items left") []].
Proof.
  unfold save_listener, renderTodos, saveTodos.
  cbn [localStorage listEl_children countEl_innerHTML effects todos set_todos
       location_hash].
  rewrite filterTodos_nil, lookup_insert_eq, <- app_assoc. by repeat split.
Qed.

(** C3: when the target of a delegated event has no enclosing row, the
    collection is left as it was, but not always in silence: a click on a
    toggle or remove icon ends with an uncaught [TypeError] unless the
    collection is empty, and then it writes the empty collection to the
    slot and renders it (an empty list, the counter at zero); a keydown in
    an editable region ends with an uncaught [TypeError] exactly when its
    key code is 13, and never saves or renders; a handler that throws
    leaves the whole page as it was. *)
Theorem missing_row_keeps_collection target st :
  closest_row target = None ->
  (let o := dispatch (list_click target) st in
   todos (after o) = todos st
   /\ (matches target (js "toggle") || matches target (js "remove") = true ->
       uncaught o = match todos st with [] => [] | _ :: _ => [TypeError] end)
   /\ (uncaught o <> [] -> after o = st)
   /\ (matches target (js "toggle") || matches target (js "remove") = true ->
       todos st = [] ->
       after o = save_listener (set_todos [] st)
       /\ localStorage (after o) !! LOCAL_STORAGE_KEY = Some (js "[]")
       /\ listEl_children (after o) = []
       /\ countEl_innerHTML (after o) = js "0 items left"
       /\ effects (after o)
          = effects st ++ [setItem LOCAL_STORAGE_KEY (js "[]");
                           rendered (js "0 items left") []]))
  /\ (forall e,
      let o := dispatch (list_keydown e target) st in
      todos (after o) = todos st
      /\ (matches target (js "value") = true ->
          uncaught o = if (keyCode e =? 13)%N then [TypeError] else [])
      /\ (uncaught o <> [] -> after o = st)
      /\ after o = st).
Proof.
  intros Hrow. split.
  - unfold dispatch, delegate, and_then.
    destruct (matches target (js "toggle")) eqn:Ht;
      destruct (matches target (js "remove")) eqn:Hr;
      rewrite ?(toggle_handler_missing _ _ Hrow);
      rewrite ?(remove_handler_missing _ _ Hrow).
    + unfold matches in Ht, Hr.
      apply bool_decide_eq_true in Ht. apply bool_decide_eq_true in Hr.
      rewrite Ht in Hr. discriminate.
    + destruct (todos st) eqn:E; simpl; rewrite ?E; repeat split; try done;
        apply save_listener_empty.
    + destruct (todos st) eqn:E; simpl; rewrite ?E; repeat split; try done;
        apply save_listener_empty.
    + simpl. repeat split; try done.
  - intros e. unfold dispatch, delegate.
    destruct (matches target (js "value")) eqn:Hv.
    + rewrite (edit_handler_missing _ _ _ _ Hrow).
      destruct (keyCode e =? 13)%N; simpl; repeat split; try done.
    + simpl. repeat split; try done.
Qed.

Lemma missing_row_keeps_collection_witness :
  closest_row (remove_of None) = None
  /\ todos (after (dispatch (list_click (remove_of None)) (page_ABC (js ""))))
     = todos (page_ABC (js ""))
  /\ effects (after (dispatch (list_click (remove_of None)) (page ∅ (js ""))))
     = [setItem LOCAL_STORAGE_KEY (js "[]"); rendered (js "0 items left") []].
Proof.
  split; [reflexivity|]. split.
  - destruct (missing_row_keeps_collection (remove_of None) (page_ABC (js ""))
                eq_refl) as ((H & _) & _).
    exact H.
  - destruct (missing_row_keeps_collection (remove_of None) (page ∅ (js ""))
                eq_refl) as ((_ & _ & _ & H) & _).
    destruct (H eq_refl eq_refl) as (_ & _ & _ & _ & He). exact He.
Defined.

(** A click on a toggle icon outside every row, on the page showing A, B
    and C, ends the handler with an uncaught [TypeError]. *)
Lemma toggle_without_row_throws :
  matches (toggle_of None) (js "toggle") = true
  /\ closest_row (toggle_of None) = None
  /\ uncaught (dispatch (list_click (toggle_of None)) (page_ABC (js "")))
     = [TypeError].
Proof. repeat split. Qed.

(** ** Ids *)

Lemma toggle_handler_ids target st :
  map Todo.id (todos (after (toggle_handler target st))) = map Todo.id (todos st).
Proof.
  destruct (closest_row target) as [row|] eqn:E.
  - rewrite (toggle_handler_found _ _ _ E). simpl. rewrite map_map.
    apply map_ext. intros todo.
    by destruct (strict_eq (Todo.id todo) (dataset_id row)).
  - rewrite (toggle_handler_missing _ _ E).
    by destruct (todos st) eqn:E'; simpl; rewrite ?E'.
Qed.

Lemma edit_handler_ids event e target st :
  map Todo.id (todos (after (edit_handler event e target st)))
  = map Todo.id (todos st).
Proof.
  unfold edit_handler.
  destruct (keyCode event =? 13)%N; [|done].
  destruct (closest_row target) as [[i [content|]]|]; simpl; try done.
  rewrite Array_map_total. simpl. rewrite map_map.
  apply map_ext. intros todo. by destruct (strict_eq (Todo.id todo) i).
Qed.

Lemma remove_handler_ids target st :
  sublist (map Todo.id (todos (after (remove_handler target st))))
          (map Todo.id (todos st)).
Proof.
  destruct (closest_row target) as [row|] eqn:E.
  - rewrite (remove_handler_found _ _ _ E). simpl.
    induction (todos st) as [|x r IH]; simpl; [done|].
    destruct (negb _); simpl; by constructor.
  - rewrite (remove_handler_missing _ _ E).
    by destruct (todos st) eqn:E'; simpl; rewrite ?E'.
Qed.

Lemma dispatch_keeps_ids_distinct ev st :
  NoDup (map Todo.id (todos st)) ->
  draws_fresh_id ev st ->
  NoDup (map Todo.id (todos (after (dispatch ev st)))).
Proof.
  intros Hnd Hfresh. destruct ev as [text|e uuid|target|e target|hash];
    cbn [dispatch].
  - exact Hnd.
  - unfold input_keyup_listener.
    destruct (_ && _); simpl; [|exact Hnd].
    rewrite map_app. simpl. apply NoDup_app. split; [exact Hnd|]. split.
    + intros x Hx Hin. apply list_elem_of_singleton in Hin. subst x.
      by apply Hfresh.
    + apply NoDup_singleton.
  - unfold and_then, delegate. cbn [after].
    destruct (matches target (js "toggle")), (matches target (js "remove"));
      cbn [after returned].
    + eapply sublist_NoDup; [|apply remove_handler_ids].
      by rewrite toggle_handler_ids.
    + by rewrite toggle_handler_ids.
    + eapply sublist_NoDup; [exact Hnd|apply remove_handler_ids].
    + exact Hnd.
  - unfold delegate. destruct (matches target (js "value")); [|exact Hnd].
    by rewrite edit_handler_ids.
  - exact Hnd.
Qed.

(** C9: in every page reached from an empty collection by events of the
    page, each new id being one that no item carries yet, no two items have
    the same id. *)
Theorem ids_stay_distinct st :
  reachable st -> NoDup (map Todo.id (todos st)).
Proof.
  induction 1 as [st E|ev st _ IH Hfresh].
  - rewrite E. constructor.
  - by apply dispatch_keeps_ids_distinct.
Qed.

(** ** JSON: parsing what [stringify] writes *)

Module JSON_facts.
Import JSON.
Local Open Scope N_scope.

Lemma hex_value_digit d : d < 16 -> hex_value (hex_digit d) = Some d.
Proof.
  intros H. unfold hex_digit, hex_value.
  destruct (d <? 10) eqn:E.
  - apply N.ltb_lt in E.
    replace ((48 <=? 48 + d) && (48 + d <=? 57)) with true
      by (symmetry; apply andb_true_iff; split; apply N.leb_le; lia).
    f_equal. lia.
  - apply N.ltb_ge in E.
    replace ((48 <=? 87 + d) && (87 + d <=? 57)) with false
      by (symmetry; apply andb_false_iff; right; apply N.leb_gt; lia).
    replace ((97 <=? 87 + d) && (87 + d <=? 102)) with true
      by (symmetry; apply andb_true_iff; split; apply N.leb_le; lia).
    f_equal. lia.
Qed.

Lemma hex4_digits c :
  c < 65536 ->
  hex4 (hex_digit (c / 4096 mod 16)) (hex_digit (c / 256 mod 16))
       (hex_digit (c / 16 mod 16)) (hex_digit (c mod 16)) = Some c.
Proof.
  intros H. unfold hex4.
  rewrite !hex_value_digit by (apply N.mod_lt; discriminate).
  f_equal.
  pose proof (N.div_mod c 16 ltac:(discriminate)) as H0.
  pose proof (N.div_mod (c / 16) 16 ltac:(discriminate)) as H1.
  pose proof (N.div_mod (c / 256) 16 ltac:(discriminate)) as H2.
  assert (E1 : c / 16 / 16 = c / 256) by (by rewrite N.Div0.div_div).
  assert (E2 : c / 256 / 16 = c / 4096) by (by rewrite N.Div0.div_div).
  assert (E3 : c / 4096 < 16) by (apply N.Div0.div_lt_upper_bound; lia).
  rewrite (N.mod_small (c / 4096) 16) by assumption.
  rewrite E1 in H1. rewrite E2 in H2. lia.
Qed.

Lemma parse_plain c tail :
  (c =? 34) = false -> (c =? 92) = false -> (c <? 32) = false ->
  parse_string_body (c :: tail) = continue c tail.
Proof. intros H1 H2 H3. cbn [parse_string_body]. by rewrite H1, H2, H3. Qed.

Lemma parse_unicode_escape c tail :
  c < 65536 -> parse_string_body (unicode_escape c ++ tail) = continue c tail.
Proof.
  intros H. unfold unicode_escape, continue. cbn [app parse_string_body].
  change (92 =? 34) with false. change (92 =? 92) with true.
  change (117 =? 117) with true. cbv iota. by rewrite (hex4_digits c H).
Qed.

Lemma parse_quote_unit c tail :
  parse_string_body (quote_unit c ++ tail) = continue c tail.
Proof.
  unfold quote_unit.
  destruct (c =? 8) eqn:E8; [apply N.eqb_eq in E8; by subst|].
  destruct (c =? 9) eqn:E9; [apply N.eqb_eq in E9; by subst|].
  destruct (c =? 10) eqn:E10; [apply N.eqb_eq in E10; by subst|].
  destruct (c =? 12) eqn:E12; [apply N.eqb_eq in E12; by subst|].
  destruct (c =? 13) eqn:E13; [apply N.eqb_eq in E13; by subst|].
  destruct (c =? 34) eqn:E34; [apply N.eqb_eq in E34; by subst|].
  destruct (c =? 92) eqn:E92; [apply N.eqb_eq in E92; by subst|].
  destruct ((c <? 32) || is_leading_surrogate c || is_trailing_surrogate c) eqn:E.
  - apply parse_unicode_escape.
    unfold is_leading_surrogate, is_trailing_surrogate in E.
    apply orb_true_iff in E as [E|E]; [apply orb_true_iff in E as [E|E]|].
    + apply N.ltb_lt in E. lia.
    + apply andb_true_iff in E as [_ E]. apply N.leb_le in E. lia.
    + apply andb_true_iff in E as [_ E]. apply N.leb_le in E. lia.
  - apply orb_false_iff in E as [E _]. apply orb_false_iff in E as [E _].
    by apply parse_plain.
Qed.

Lemma surrogate_is_plain c :
  is_leading_surrogate c = true \/ is_trailing_surrogate c = true ->
  (c =? 34) = false /\ (c =? 92) = false /\ (c <? 32) = false /\ c < 65536.
Proof.
  unfold is_leading_surrogate, is_trailing_surrogate.
  intros [E|E]; apply andb_true_iff in E as [E1 E2];
    apply N.leb_le in E1; apply N.leb_le in E2;
    (split; [apply N.eqb_neq; lia|]); (split; [apply N.eqb_neq; lia|]);
    (split; [apply N.ltb_ge; lia|lia]).
Qed.

Lemma parse_quote_body_step c s :
  (forall rest, parse_string_body (quote_body s ++ 34 :: rest) = Some (s, rest)) ->
  (forall d r, s = d :: r ->
     forall rest, parse_string_body (quote_body r ++ 34 :: rest) = Some (r, rest)) ->
  forall rest,
    parse_string_body (quote_body (c :: s) ++ 34 :: rest) = Some (c :: s, rest).
Proof.
  intros Hs Hr rest. cbn [quote_body].
  destruct (is_leading_surrogate c) eqn:Ec.
  - destruct (surrogate_is_plain c (or_introl Ec)) as (C1 & C2 & C3 & C4).
    destruct s as [|d r].
    + rewrite (parse_unicode_escape c _ C4). reflexivity.
    + destruct (is_trailing_surrogate d) eqn:Ed.
      * destruct (surrogate_is_plain d (or_intror Ed)) as (D1 & D2 & D3 & _).
        cbn [app]. rewrite (parse_plain c _ C1 C2 C3). unfold continue.
        rewrite (parse_plain d _ D1 D2 D3). unfold continue.
        by rewrite (Hr d r eq_refl).
      * rewrite <- app_assoc, (parse_unicode_escape c _ C4). unfold continue.
        by rewrite Hs.
  - rewrite <- app_assoc, parse_quote_unit. unfold continue. by rewrite Hs.
Qed.

(** A quoted string is read back as it was. *)
Lemma parse_quote_body s rest :
  parse_string_body (quote_body s ++ 34 :: rest) = Some (s, rest).
Proof.
  revert rest.
  cut ((forall rest, parse_string_body (quote_body s ++ 34 :: rest) = Some (s, rest))
       /\ (forall d r, s = d :: r -> forall rest,
             parse_string_body (quote_body r ++ 34 :: rest) = Some (r, rest))).
  { by intros [H _]. }
  induction s as [|c s [IH1 IH2]].
  - split; [reflexivity|discriminate].
  - split.
    + by apply parse_quote_body_step.
    + intros d r [= -> ->]. exact IH1.
Qed.

Lemma stringify_head v : exists c t, stringify v = c :: t /\ opens_value c.
Proof.
  unfold opens_value.
  destruct v as [|[|]|s|l|ms]; cbn [stringify js N_of_ascii N_of_digits];
    eexists _, _; (split; [reflexivity|]); simpl; tauto.
Qed.

Lemma parse_value_quote f r :
  parse_value (S f) (34 :: r)
  = match parse_string_body r with
    | Some (str, rest) => Some (Str str, rest)
    | None => None
    end.
Proof. reflexivity. Qed.

Lemma parse_value_array f c t :
  opens_value c ->
  parse_value (S f) (91 :: c :: t)
  = match parse_elements f (c :: t) with
    | Some (l, rest) => Some (Arr l, rest)
    | None => None
    end.
Proof. intros [->|[->|[->|[->|[->| ->]]]]]; reflexivity. Qed.

Lemma parse_value_object f t :
  parse_value (S f) (123 :: 34 :: t)
  = match parse_members f (34 :: t) with
    | Some (ms, rest) => Some (Obj ms, rest)
    | None => None
    end.
Proof. reflexivity. Qed.

Lemma parse_elements_S f s :
  parse_elements (S f) s
  = match parse_value f s with
    | Some (x, r) =>
        match skip_ws r with
        | 44 :: r' =>
            match parse_elements f r' with
            | Some (l, rest) => Some (x :: l, rest)
            | None => None
            end
        | 93 :: rest => Some ([x], rest)
        | _ => None
        end
    | None => None
    end.
Proof. reflexivity. Qed.

Lemma parse_members_quote f r :
  parse_members (S f) (34 :: r)
  = match parse_string_body r with
    | Some (k, r0) =>
        match skip_ws r0 with
        | 58 :: r1 =>
            match parse_value f r1 with
            | Some (x, r2) =>
                match skip_ws r2 with
                | 44 :: r' =>
                    match parse_members f r' with
                    | Some (ms, rest) => Some ((k, x) :: ms, rest)
                    | None => None
                    end
                | 125 :: rest => Some ([(k, x)], rest)
                | _ => None
                end
            | None => None
            end
        | _ => None
        end
    | None => None
    end.
Proof. reflexivity. Qed.

Lemma join_comma_one p : join_comma [p] = p.
Proof. apply app_nil_r. Qed.

Lemma join_comma_more p q ps :
  join_comma (p :: q :: ps) = p ++ 44 :: join_comma (q :: ps).
Proof. reflexivity. Qed.

Lemma join_comma_map {A} (f : A -> jsstring) x l tl :
  join_comma (map f (x :: l)) ++ tl
  = f x ++ match l with
           | [] => tl
           | _ :: _ => 44 :: join_comma (map f l) ++ tl
           end.
Proof.
  destruct l as [|y l].
  - cbn [map]. by rewrite join_comma_one.
  - change (map f (x :: y :: l)) with (f x :: f y :: map f l).
    rewrite join_comma_more. by rewrite <- app_assoc.
Qed.

Lemma join_comma_map_length {A} (f : A -> jsstring) x l :
  length (join_comma (map f (x :: l)))
  = (length (f x) + match l with
                    | [] => 0
                    | _ :: _ => S (length (join_comma (map f l)))
                    end)%nat.
Proof.
  destruct l as [|y l].
  - cbn [map]. rewrite join_comma_one. lia.
  - change (map f (x :: y :: l)) with (f x :: f y :: map f l).
    rewrite join_comma_more, length_app. reflexivity.
Qed.

Lemma stringify_Obj ms :
  stringify (Obj ms) = 123 :: join_comma (map member_text ms) ++ [125].
Proof. reflexivity. Qed.

Lemma stringify_Arr l :
  stringify (Arr l) = 91 :: join_comma (map stringify l) ++ [93].
Proof. reflexivity. Qed.

(** With fuel for the length of the text, a serialized value, the elements
    of a serialized array and the members of a serialized object are read
    back as they were. *)
Lemma parse_stringify_fuel (fuel : nat) :
  (forall v rest,
     (length (stringify v) <= fuel)%nat ->
     parse_value fuel (stringify v ++ rest) = Some (v, rest))
  /\ (forall l rest,
       l <> [] ->
       (length (join_comma (map stringify l)) < fuel)%nat ->
       parse_elements fuel (join_comma (map stringify l) ++ 93 :: rest)
       = Some (l, rest))
  /\ (forall ms rest,
       ms <> [] ->
       (length (join_comma (map member_text ms)) < fuel)%nat ->
       parse_members fuel (join_comma (map member_text ms) ++ 125 :: rest)
       = Some (ms, rest)).
Proof.
  induction fuel as [|f (IHv & IHl & IHm)].
  { split; [|split; intros; lia].
    intros v rest H. destruct (stringify_head v) as (c & t & E & _).
    rewrite E in H. simpl in H. lia. }
  split; [|split].
  - intros v rest Hlen. destruct v as [|[|]|s|l|ms].
    + reflexivity.
    + reflexivity.
    + reflexivity.
    + cbn [stringify]. unfold quote. cbn [app]. rewrite <- app_assoc. cbn [app].
      by rewrite parse_value_quote, parse_quote_body.
    + rewrite stringify_Arr in *. cbn [app length] in *.
      rewrite <- app_assoc. cbn [app]. rewrite length_app in Hlen. simpl in Hlen.
      destruct l as [|x r]; [reflexivity|].
      assert (Hl : (length (join_comma (map stringify (x :: r))) < f)%nat) by lia.
      specialize (IHl (x :: r) rest ltac:(discriminate) Hl).
      rewrite join_comma_map in *.
      destruct (stringify_head x) as (c & t & E & Hc). rewrite E in *.
      cbn [app] in *. by rewrite (parse_value_array _ _ _ Hc), IHl.
    + rewrite stringify_Obj in *. cbn [app length] in *.
      rewrite <- app_assoc. cbn [app]. rewrite length_app in Hlen. simpl in Hlen.
      destruct ms as [|[k x] r]; [reflexivity|].
      assert (Hl : (length (join_comma (map member_text ((k, x) :: r))) < f)%nat)
        by lia.
      specialize (IHm ((k, x) :: r) rest ltac:(discriminate) Hl).
      rewrite join_comma_map in *. cbn [member_text] in *.
      unfold quote in *. cbn [app] in *.
      by rewrite parse_value_object, IHm.
  - intros l rest Hne Hlen. destruct l as [|x r]; [done|].
    rewrite join_comma_map. rewrite join_comma_map_length in Hlen.
    rewrite parse_elements_S, IHv by lia.
    destruct r as [|y r]; [reflexivity|].
    change (skip_ws (44 :: ?t)) with (44 :: t). cbv iota.
    rewrite IHl; [done|discriminate|lia].
  - intros ms rest Hne Hlen. destruct ms as [|[k x] r]; [done|].
    rewrite join_comma_map. rewrite join_comma_map_length in Hlen.
    cbn [member_text] in *.
    unfold quote in *. cbn [app length] in *. rewrite <- !app_assoc.
    cbn [app]. rewrite !length_app in Hlen. cbn [length] in Hlen.
    rewrite parse_members_quote, parse_quote_body.
    change (skip_ws (58 :: ?t)) with (58 :: t). cbv iota.
    rewrite IHv by lia.
    destruct r as [|y r]; [reflexivity|].
    change (skip_ws (44 :: ?t)) with (44 :: t). cbv iota.
    rewrite IHm; [done|discriminate|lia].
Qed.

(** [JSON.parse(JSON.stringify(v))] is [v]. *)
Lemma parse_stringify v : parse (stringify v) = Normal v.
Proof.
  unfold parse.
  destruct (parse_stringify_fuel (S (length (stringify v)))) as (H & _).
  rewrite <- (app_nil_r (stringify v)) at 2.
  rewrite H by lia. reflexivity.
Qed.

Lemma to_todo_of_todo todo : to_todo (of_todo todo) = Some todo.
Proof. by destruct todo. Qed.

Lemma to_todos_of_todos l : to_todos (of_todos l) = Some l.
Proof.
  unfold to_todos, of_todos.
  induction l as [|todo r IH]; [done|].
  cbn [map to_todo_list]. by rewrite to_todo_of_todo, IH.
Qed.
End JSON_facts.

(** ** Persistence *)

Lemma stored_todos_saveTodos st :
  stored_todos (localStorage (saveTodos st)) = Normal (Some (todos st)).
Proof.
  assert (E : stored_text (localStorage (saveTodos st))
              = JSON.stringify (JSON.of_todos (todos st))).
  { unfold stored_text, saveTodos. cbn [localStorage].
    rewrite lookup_insert_eq.
    by destruct (JSON_facts.stringify_head (JSON.of_todos (todos st)))
      as (c & t & -> & _). }
  unfold stored_todos. rewrite E, JSON_facts.parse_stringify. cbn [bind].
  by rewrite JSON_facts.to_todos_of_todos.
Qed.

(** The save listener writes the collection to the slot and then renders
    it; what the slot holds afterwards reads back as the collection. *)
Lemma save_listener_persists st :
  let st' := save_listener st in
  todos st' = todos st
  /\ localStorage st' !! LOCAL_STORAGE_KEY
     = Some (JSON.stringify (JSON.of_todos (todos st)))
  /\ stored_todos (localStorage st') = Normal (Some (todos st))
  /\ effects st'
     = effects st
       ++ [setItem LOCAL_STORAGE_KEY (JSON.stringify (JSON.of_todos (todos st)));
           rendered (countEl_innerHTML st') (listEl_children st')].
Proof.
  cbn zeta. split; [done|]. split; [|split].
  - unfold save_listener, renderTodos, saveTodos. cbn [localStorage].
    apply lookup_insert_eq.
  - change (localStorage (save_listener st)) with (localStorage (saveTodos st)).
    apply stored_todos_saveTodos.
  - unfold save_listener, renderTodos. cbn [effects countEl_innerHTML listEl_children].
    unfold saveTodos at 1. cbn [effects]. by rewrite <- app_assoc.
Qed.

(** Every operation ends in the save listener, run on the page with the
    new collection. *)
Lemma operation_saves ev st :
  is_operation ev st = true ->
  exists l, after (dispatch ev st) = save_listener (set_todos l st).
Proof.
  destruct ev as [text|e uuid|target|e target|hash]; cbn [is_operation];
    try discriminate.
  - intros H. cbn [dispatch]. unfold input_keyup_listener.
    fold (is_enter e). rewrite H. eauto.
  - intros H. apply andb_true_iff in H as [Hsel Hrow].
    destruct (closest_row target) as [row|] eqn:E; [|discriminate].
    cbn [dispatch]. unfold and_then, delegate. cbn [after].
    destruct (matches target (js "toggle")) eqn:Ht.
    + assert (Hr : matches target (js "remove") = false).
      { unfold matches in *. apply bool_decide_eq_true in Ht.
        apply bool_decide_eq_false. rewrite Ht. discriminate. }
      rewrite Hr, (toggle_handler_found _ _ _ E). eauto.
    + cbn [orb] in Hsel. rewrite Hsel. cbn [after returned].
      rewrite (remove_handler_found _ _ _ E). eauto.
  - intros H. apply andb_true_iff in H as [H Hrow].
    apply andb_true_iff in H as [Hsel Hk]. apply N.eqb_eq in Hk.
    destruct (closest_row target) as [row|] eqn:E; [|discriminate].
    destruct (value_region row) as [content|] eqn:Ev; [|discriminate].
    cbn [dispatch]. unfold delegate. rewrite Hsel.
    rewrite (edit_handler_found _ _ _ _ _ _ E Ev Hk). eauto.
Qed.

(** C1: after any run of events, an Add, Toggle, Remove or Edit-commit
    leaves in the storage slot the serialized collection, which reads back
    as the collection in memory, items, fields and order; the write to the
    slot comes first and the render second, and they are all the operation
    does to the outside. *)
Theorem persisted_collection_is_the_collection evs ev st0 :
  is_operation ev (run evs st0) = true ->
  let st := run evs st0 in
  let st' := after (dispatch ev st) in
  localStorage st' !! LOCAL_STORAGE_KEY
  = Some (JSON.stringify (JSON.of_todos (todos st')))
  /\ stored_todos (localStorage st') = Normal (Some (todos st'))
  /\ effects st'
     = effects st
       ++ [setItem LOCAL_STORAGE_KEY (JSON.stringify (JSON.of_todos (todos st')));
           rendered (countEl_innerHTML st') (listEl_children st')].
Proof.
  intros Hop st st'. subst st st'.
  destruct (operation_saves _ _ Hop) as [l ->].
  destruct (save_listener_persists (set_todos l (run evs st0)))
    as (Ht & Hslot & Hread & Heff).
  cbn zeta in *. rewrite Ht. auto.
Qed.

Lemma persisted_collection_is_the_collection_witness :
  is_operation (input_keyup Enter (js "id-1"))
               (run [input_typed (js "buy milk")] (page ∅ (js ""))) = true
  /\ stored_todos (localStorage
       (after (dispatch (input_keyup Enter (js "id-1"))
                        (run [input_typed (js "buy milk")] (page ∅ (js ""))))))
     = Normal (Some (todos
       (after (dispatch (input_keyup Enter (js "id-1"))
                        (run [input_typed (js "buy milk")] (page ∅ (js ""))))))).
Proof.
  split; [reflexivity|].
  destruct (persisted_collection_is_the_collection
              [input_typed (js "buy milk")] (input_keyup Enter (js "id-1"))
              (page ∅ (js "")) eq_refl) as (_ & H & _).
  exact H.
Defined.

Lemma two_items_reachable : reachable two_items.
Proof.
  unfold two_items, run. cbn [fold_left].
  repeat (apply reachable_dispatch;
          [|cbn [draws_fresh_id]; try exact I;
            apply (bool_decide_unpack _); vm_compute; exact I]).
  by apply reachable_empty.
Defined.

Lemma ids_stay_distinct_witness :
  reachable two_items /\ NoDup (map Todo.id (todos two_items)).
Proof.
  split; [exact two_items_reachable|].
  exact (ids_stay_distinct two_items two_items_reachable).
Defined.

(** * Further properties of the script *)

(** ** The shape of a listener's result *)

Lemma matches_one target a b :
  matches target a = true -> a <> b -> matches target b = false.
Proof.
  unfold matches. intros Ha Hab. apply bool_decide_eq_true in Ha.
  apply bool_decide_eq_false. rewrite Ha. congruence.
Qed.

Lemma toggle_handler_shape target st :
  (exists l, toggle_handler target st = returned (save_listener (set_todos l st)))
  \/ (closest_row target = None /\ toggle_handler target st = threw st TypeError).
Proof.
  destruct (closest_row target) as [row|] eqn:E.
  - left. rewrite (toggle_handler_found _ _ _ E). eauto.
  - rewrite (toggle_handler_missing _ _ E). destruct (todos st); eauto.
Qed.

Lemma remove_handler_shape target st :
  (exists l, remove_handler target st = returned (save_listener (set_todos l st)))
  \/ (closest_row target = None /\ remove_handler target st = threw st TypeError).
Proof.
  destruct (closest_row target) as [row|] eqn:E.
  - left. rewrite (remove_handler_found _ _ _ E). eauto.
  - rewrite (remove_handler_missing _ _ E). destruct (todos st); eauto.
Qed.

Lemma edit_handler_shape event e target st :
  edit_handler event e target st = returned st
  \/ (exists l, edit_handler event e target st
                = {| after := save_listener (set_todos l st);
                     uncaught := [];
                     defaultPrevented := true |})
  \/ (lacks_element (list_keydown e target)
      /\ edit_handler event e target st
         = {| after := st; uncaught := [TypeError]; defaultPrevented := true |}).
Proof.
  unfold edit_handler, lacks_element.
  destruct (keyCode event =? 13)%N; [|by left]. right.
  destruct (closest_row target) as [[i [content|]]|]; simpl.
  - left. rewrite Array_map_total. eauto.
  - right. eauto.
  - right. eauto.
Qed.

(** What one event can make of the page: nothing, a new input text, a
    render under a new fragment, or a save of a new collection. *)
Lemma dispatch_after ev st :
  after (dispatch ev st) = st
  \/ (exists text, ev = input_typed text
                   /\ after (dispatch ev st) = with_input text st)
  \/ (exists hash, ev = hashchange hash
                   /\ after (dispatch ev st) = renderTodos (with_hash hash st))
  \/ (exists l, after (dispatch ev st) = save_listener (set_todos l st)).
Proof.
  destruct ev as [text|e uuid|target|e target|hash]; cbn [dispatch].
  - right. left. by exists text.
  - unfold input_keyup_listener. destruct (_ && _); cbn [after returned]; eauto.
  - unfold and_then, delegate. cbn [after].
    destruct (matches target (js "toggle")) eqn:Ht.
    + rewrite (matches_one _ _ (js "remove") Ht) by discriminate.
      cbn [after returned].
      destruct (toggle_handler_shape target st) as [[l ->]|[_ ->]];
        cbn [after returned threw]; eauto 6.
    + cbn [after returned].
      destruct (matches target (js "remove")); [|by left].
      destruct (remove_handler_shape target st) as [[l ->]|[_ ->]];
        cbn [after returned threw]; eauto 6.
  - unfold delegate. destruct (matches target (js "value")); [|by left].
    destruct (edit_handler_shape e e target st) as [->|[[l ->]|[_ ->]]];
      cbn [after returned]; eauto 6.
  - right. right. left. by exists hash.
Qed.

Lemma run_cons ev evs st : run (ev :: evs) st = run evs (after (dispatch ev st)).
Proof. reflexivity. Qed.

Lemma run_snoc evs ev st : run (evs ++ [ev]) st = after (dispatch ev (run evs st)).
Proof. unfold run. by rewrite fold_left_app. Qed.

(** What every event keeps, every run keeps. *)
Lemma run_invariant (P : App_state -> Prop) :
  (forall ev st, P st -> P (after (dispatch ev st))) ->
  forall evs st, P st -> P (run evs st).
Proof.
  intros Hstep evs. induction evs as [|ev evs IH]; intros st H; [done|].
  rewrite run_cons. apply IH. by apply Hstep.
Qed.

(** ** Starting the page *)

Lemma App_result storage hash st0 :
  App storage hash = Normal (Some st0) ->
  exists l,
    stored_todos storage = Normal (Some l)
    /\ st0 = renderTodos (set_todos l (page storage hash)).
Proof.
  unfold App, readTodosInStorage. cbn [localStorage page].
  destruct (stored_todos storage) as [[l|]|e]; cbn [bind option_map];
    [|discriminate..].
  intros [= <-]. eauto.
Qed.

Lemma App_on_stored storage hash l :
  stored_todos storage = Normal (Some l) ->
  App storage hash = Normal (Some (renderTodos (set_todos l (page storage hash)))).
Proof.
  intros H. unfold App, readTodosInStorage. cbn [localStorage page].
  by rewrite H.
Qed.

(** X1: when the slot is missing or holds the empty string, [App] starts
    with the empty collection: nothing is thrown, the list is empty, the
    counter reads "0 items left", the storage is as it was found and the
    only effect is that one render. *)
Theorem startup_on_empty_slot storage hash :
  storage !! LOCAL_STORAGE_KEY = None \/ storage !! LOCAL_STORAGE_KEY = Some [] ->
  exists st,
    App storage hash = Normal (Some st)
    /\ todos st = []
    /\ listEl_children st = []
    /\ countEl_innerHTML st = js "0 items left"
    /\ localStorage st = storage
    /\ effects st = [rendered (js "0 items left") []].
Proof.
  intros H.
  assert (E : stored_todos storage = Normal (Some [])).
  { unfold stored_todos, stored_text. by destruct H as [-> | ->]. }
  rewrite (App_on_stored _ hash _ E). eexists. split; [reflexivity|].
  assert (Hnil : filterTodos (getURLHash hash) [] = []).
  { unfold filterTodos. by repeat destruct (strict_eq _ _). }
  unfold renderTodos.
  cbn [todos set_todos page listEl_children countEl_innerHTML localStorage
       location_hash effects].
  rewrite Hnil. repeat split.
Qed.

Lemma startup_on_empty_slot_witness :
  (∅ : gmap jsstring jsstring) !! LOCAL_STORAGE_KEY = None
  /\ exists st,
       App ∅ (js "#/active") = Normal (Some st)
       /\ todos st = []
       /\ listEl_children st = []
       /\ countEl_innerHTML st = js "0 items left"
       /\ localStorage st = ∅
       /\ effects st = [rendered (js "0 items left") []].
Proof.
  split; [reflexivity|].
  apply (startup_on_empty_slot ∅ (js "#/active")). by left.
Defined.

(** ** What holds all along a run *)

Lemma dispatch_keeps_stored ev st :
  stored_todos (localStorage st) = Normal (Some (todos st)) ->
  stored_todos (localStorage (after (dispatch ev st)))
  = Normal (Some (todos (after (dispatch ev st)))).
Proof.
  intros H.
  destruct (dispatch_after ev st) as [->|[(text & _ & ->)|[(hash & _ & ->)|[l ->]]]];
    try exact H.
  destruct (save_listener_persists (set_todos l st)) as (Ht & _ & Hs & _).
  cbn zeta in *. by rewrite Ht.
Qed.

Lemma renderTodos_in_sync st : in_sync (renderTodos st).
Proof. by split. Qed.

Lemma dispatch_keeps_in_sync ev st :
  in_sync st -> in_sync (after (dispatch ev st)).
Proof.
  intros H.
  destruct (dispatch_after ev st) as [->|[(text & _ & ->)|[(hash & _ & ->)|[l ->]]]];
    try exact H; apply renderTodos_in_sync.
Qed.

(** X2: from the start of the page on, whatever events arrive (operations,
    rejected keys, clicks elsewhere, listeners that throw, changes of
    fragment), the storage slot reads back as the collection in memory. *)
Theorem storage_always_holds_collection storage hash st0 evs :
  App storage hash = Normal (Some st0) ->
  stored_todos (localStorage (run evs st0)) = Normal (Some (todos (run evs st0))).
Proof.
  intros HApp. destruct (App_result _ _ _ HApp) as (l & Hl & ->).
  apply (run_invariant
           (fun st => stored_todos (localStorage st) = Normal (Some (todos st)))).
  - apply dispatch_keeps_stored.
  - exact Hl.
Qed.

Lemma storage_always_holds_collection_witness :
  App ∅ (js "") = Normal (Some fresh_page)
  /\ stored_todos (localStorage (run a_session fresh_page))
     = Normal (Some (todos (run a_session fresh_page))).
Proof.
  split; [reflexivity|].
  apply (storage_always_holds_collection ∅ (js "") fresh_page a_session).
  reflexivity.
Defined.

(** X3: from the start of the page on, after every event the rows of the
    list are, in order and as to [data-id], toggle icon and strike-through,
    the rows of the items selected by the current fragment, and the counter
    shows the number of items not completed.  The text inside a row is left
    out: the user may have typed into it without committing. *)
Theorem frames_and_counter_in_sync storage hash st0 evs :
  App storage hash = Normal (Some st0) ->
  map row_frame (listEl_children (run evs st0))
  = map (fun todo => row_frame (createTodoItemEl todo))
      (filterTodos (getURLHash (location_hash (run evs st0))) (todos (run evs st0)))
  /\ countEl_innerHTML (run evs st0)
     = number_to_string (length (filterNotCompletedTodos (todos (run evs st0))))
       ++ js " items left".
Proof.
  intros HApp. destruct (App_result _ _ _ HApp) as (l & _ & ->).
  cut (in_sync (run evs (renderTodos (set_todos l (page storage hash))))).
  { intros [-> Hcount]. split; [by rewrite map_map|exact Hcount]. }
  apply (run_invariant in_sync).
  - apply dispatch_keeps_in_sync.
  - apply renderTodos_in_sync.
Qed.

Lemma frames_and_counter_in_sync_witness :
  App ∅ (js "") = Normal (Some fresh_page)
  /\ map row_frame (listEl_children (run a_session fresh_page))
     = [(js "id-2", js "bx-square", js "")]
  /\ countEl_innerHTML (run a_session fresh_page) = js "1 items left".
Proof.
  assert (HApp : App ∅ (js "") = Normal (Some fresh_page)) by reflexivity.
  split; [exact HApp|].
  destruct (frames_and_counter_in_sync ∅ (js "") fresh_page a_session HApp)
    as (Hrows & Hcount).
  split; [by rewrite Hrows | by rewrite Hcount].
Defined.

(** X4: reloading the page at any moment (running [App] again on the
    storage and the fragment as they stand) throws nothing and brings back
    the same collection and the same counter; the rows after the reload
    are the rows of that collection under the fragment, the same as before
    the reload as to [data-id], toggle icon and strike-through, with the
    stored values as their texts. *)
Theorem reload_restores_page storage hash st0 evs :
  App storage hash = Normal (Some st0) ->
  exists st',
    App (localStorage (run evs st0)) (location_hash (run evs st0))
    = Normal (Some st')
    /\ todos st' = todos (run evs st0)
    /\ listEl_children st'
       = map createTodoItemEl
           (filterTodos (getURLHash (location_hash (run evs st0)))
                        (todos (run evs st0)))
    /\ map row_frame (listEl_children st')
       = map row_frame (listEl_children (run evs st0))
    /\ countEl_innerHTML st' = countEl_innerHTML (run evs st0)
    /\ localStorage st' = localStorage (run evs st0).
Proof.
  intros HApp. destruct (App_result _ _ _ HApp) as (l & Hl & ->).
  set (st0 := renderTodos (set_todos l (page storage hash))).
  assert (Hs : stored_todos (localStorage (run evs st0))
               = Normal (Some (todos (run evs st0)))).
  { apply (run_invariant
             (fun st => stored_todos (localStorage st) = Normal (Some (todos st))));
      [apply dispatch_keeps_stored|exact Hl]. }
  assert (Hv : in_sync (run evs st0)).
  { apply (run_invariant in_sync);
      [apply dispatch_keeps_in_sync|apply renderTodos_in_sync]. }
  rewrite (App_on_stored _ (location_hash (run evs st0)) _ Hs).
  eexists. split; [reflexivity|]. destruct Hv as [Hrows Hcount].
  rewrite Hrows, Hcount. repeat split.
Qed.

Lemma reload_restores_page_witness :
  App ∅ (js "") = Normal (Some fresh_page)
  /\ exists st',
       App (localStorage (run a_session fresh_page))
           (location_hash (run a_session fresh_page))
       = Normal (Some st')
       /\ todos st' = todos (run a_session fresh_page)
       /\ listEl_children st'
          = map createTodoItemEl
              (filterTodos (getURLHash (location_hash (run a_session fresh_page)))
                           (todos (run a_session fresh_page)))
       /\ map row_frame (listEl_children st')
          = map row_frame (listEl_children (run a_session fresh_page))
       /\ countEl_innerHTML st' = countEl_innerHTML (run a_session fresh_page)
       /\ localStorage st' = localStorage (run a_session fresh_page).
Proof.
  split; [reflexivity|].
  apply (reload_restores_page ∅ (js "") fresh_page a_session). reflexivity.
Defined.

(** X5: the script writes to no slot of the storage but its own: the
    value under any other key is the same after any run of events. *)
Theorem other_slots_untouched (k : jsstring) evs st :
  k <> LOCAL_STORAGE_KEY ->
  localStorage (run evs st) !! k = localStorage st !! k.
Proof.
  intros Hk.
  apply (run_invariant (fun s => localStorage s !! k = localStorage st !! k));
    [|done].
  clear evs. intros ev s H.
  destruct (dispatch_after ev s) as [->|[(text & _ & ->)|[(hash & _ & ->)|[l ->]]]];
    try exact H.
  unfold save_listener, renderTodos, saveTodos. cbn [localStorage set_todos].
  by rewrite lookup_insert_ne.
Qed.

Lemma other_slots_untouched_witness :
  js "theme" <> LOCAL_STORAGE_KEY
  /\ localStorage (run a_session
       (with_input (js "") (page {[ js "theme" := js "dark" ]} (js ""))))
     !! js "theme"
     = Some (js "dark").
Proof.
  split; [discriminate|].
  rewrite (other_slots_untouched (js "theme") a_session
             (with_input (js "") (page {[ js "theme" := js "dark" ]} (js ""))));
    [reflexivity|discriminate].
Defined.

(** ** Changes of fragment *)

(** X6: changes of the fragment, however many, only re-render: the
    collection, the storage and the input are as before, and the list shows
    the collection under the last fragment. *)
Theorem hashchanges_only_render (hashes : list jsstring) st :
  todos (run (map hashchange hashes) st) = todos st
  /\ localStorage (run (map hashchange hashes) st) = localStorage st
  /\ inputEl_value (run (map hashchange hashes) st) = inputEl_value st
  /\ (forall h, last hashes = Some h ->
      location_hash (run (map hashchange hashes) st) = h
      /\ listEl_children (run (map hashchange hashes) st)
         = map createTodoItemEl (filterTodos (getURLHash h) (todos st))).
Proof.
  induction hashes as [|h hs (Ht & Hs & Hi & _)] using rev_ind.
  - split; [done|]. split; [done|]. split; [done|]. intros h. discriminate.
  - rewrite map_app. cbn [map]. rewrite run_snoc. cbn [dispatch after returned].
    split; [exact Ht|]. split; [exact Hs|]. split; [exact Hi|].
    intros h'. rewrite last_snoc. intros [= <-].
    unfold renderTodos. cbn [location_hash listEl_children todos].
    by rewrite Ht.
Qed.

(** ** Events on other elements *)

(** X7: a click on an element of the list that is neither a toggle nor a
    remove icon, and a keydown (Enter included) on an element that is not an
    editable region, run no handler: the page is as before and nothing is
    thrown. *)
Theorem other_targets_ignored target st :
  (data_todo target <> Some (js "toggle") ->
   data_todo target <> Some (js "remove") ->
   dispatch (list_click target) st = returned st)
  /\ (data_todo target <> Some (js "value") ->
      forall e, dispatch (list_keydown e target) st = returned st).
Proof.
  split.
  - intros Ht Hr. cbn [dispatch]. unfold delegate, matches.
    by rewrite !bool_decide_eq_false_2.
  - intros Hv e. cbn [dispatch]. unfold delegate, matches.
    by rewrite bool_decide_eq_false_2.
Qed.

(** ** Adding, again *)

Lemma after_add e uuid st :
  is_enter e = true ->
  trim (inputEl_value st) <> [] ->
  after (dispatch (input_keyup e uuid) st)
  = save_listener (set_todos
      (todos st ++ [{| Todo.value := inputEl_value st;
                       Todo.id := uuid;
                       Todo.completed := false |}]) st).
Proof.
  intros He Ht. cbn [dispatch]. by rewrite (input_keyup_accepts _ _ _ He Ht).
Qed.

Lemma save_listener_grows st st0 :
  effects st0 = effects st -> save_listener st <> st0.
Proof.
  intros E Heq. apply (f_equal (fun s => length (effects s))) in Heq.
  rewrite E in Heq. unfold save_listener, renderTodos, saveTodos in Heq.
  cbn [effects] in Heq. rewrite !length_app in Heq. simpl in Heq. lia.
Qed.

(** X8: a keyup in the input leaves the page exactly as it was if and only
    if the key is not Enter (neither by [key] nor by [keyCode]) or the text
    is empty or all white space. *)
Theorem add_fires_exactly_on_enter_nonblank e uuid st :
  dispatch (input_keyup e uuid) st = returned st
  <-> is_enter e = false \/ forallb is_white_space (inputEl_value st) = true.
Proof.
  rewrite <- trim_empty_iff. split.
  - intros H. destruct (is_enter e) eqn:He; [|by left]. right.
    destruct (decide (trim (inputEl_value st) = [])) as [Ht|Ht]; [done|].
    exfalso. apply (f_equal after) in H.
    rewrite (after_add _ _ _ He Ht) in H. cbn [after returned] in H.
    by apply save_listener_grows in H.
  - intros H. cbn [dispatch]. by apply input_keyup_rejects.
Qed.

(** X9: an accepted Enter does not clear the input, so a second Enter adds
    a second item with the same text, after the first. *)
Theorem enter_twice_adds_twice e1 e2 uuid1 uuid2 st :
  is_enter e1 = true ->
  is_enter e2 = true ->
  trim (inputEl_value st) <> [] ->
  inputEl_value (run [input_keyup e1 uuid1; input_keyup e2 uuid2] st)
  = inputEl_value st
  /\ todos (run [input_keyup e1 uuid1; input_keyup e2 uuid2] st)
     = todos st
       ++ [{| Todo.value := inputEl_value st; Todo.id := uuid1;
              Todo.completed := false |};
           {| Todo.value := inputEl_value st; Todo.id := uuid2;
              Todo.completed := false |}].
Proof.
  intros H1 H2 Ht. rewrite !run_cons. cbn [run fold_left].
  rewrite (after_add e1 uuid1 st H1 Ht).
  set (st1 := save_listener _).
  rewrite (after_add e2 uuid2 st1 H2 Ht).
  split; [reflexivity|]. subst st1.
  cbn [todos save_listener renderTodos saveTodos set_todos inputEl_value].
  by rewrite <- app_assoc.
Qed.

Lemma enter_twice_adds_twice_witness :
  is_enter Enter = true
  /\ trim (inputEl_value (page_ABC_typed (js "buy milk"))) <> []
  /\ map Todo.value
       (todos (run [input_keyup Enter (js "id-1"); input_keyup Enter (js "id-2")]
                   (page_ABC_typed (js "buy milk"))))
     = [js "A"; js "B"; js "C"; js "buy milk"; js "buy milk"].
Proof.
  split; [reflexivity|]. split; [discriminate|].
  destruct (enter_twice_adds_twice Enter Enter (js "id-1") (js "id-2")
              (page_ABC_typed (js "buy milk")) eq_refl eq_refl)
    as (_ & H); [discriminate|].
  by rewrite H.
Defined.

(** X10: no listener writes the input's text or the fragment: the text
    changes only when the user types and the fragment only on a
    [hashchange]. *)
Theorem listeners_keep_input_and_hash ev st :
  ((forall text, ev <> input_typed text) ->
   inputEl_value (after (dispatch ev st)) = inputEl_value st)
  /\ ((forall hash, ev <> hashchange hash) ->
      location_hash (after (dispatch ev st)) = location_hash st).
Proof.
  destruct (dispatch_after ev st)
    as [->|[(text & E & ->)|[(hash & E & ->)|[l ->]]]];
    split; intros H; try reflexivity; by destruct (H _ E).
Qed.

(** ** Rows *)

(** X11: a row tells its item: two items with the same row are the same
    item; the toggle shows the checked icon and the text is struck through
    exactly when the item is completed. *)
Theorem createTodoItemEl_injective (a b : Todo.t) :
  (createTodoItemEl a = createTodoItemEl b -> a = b)
  /\ (li_toggle_class (createTodoItemEl a) = js "bx-check-square"
      <-> Todo.completed a = true)
  /\ (li_value_class (createTodoItemEl a) = js "line-through"
      <-> Todo.completed a = true).
Proof.
  destruct a as [v i c], b as [v' i' c']. unfold createTodoItemEl. cbn.
  split; [|split].
  - destruct c, c'; intros H; injection H; intros; subst; try done.
  - by destruct c.
  - by destruct c.
Qed.

(** ** How operations compose *)

Lemma after_toggle target row st :
  data_todo target = Some (js "toggle") ->
  closest_row target = Some row ->
  after (dispatch (list_click target) st)
  = save_listener (set_todos
      (map (fun todo => if strict_eq (Todo.id todo) (dataset_id row)
                        then Todo.with_completed todo (negb (Todo.completed todo))
                        else todo) (todos st)) st).
Proof.
  intros Hsel Hrow.
  by rewrite (click_on_toggle _ _ Hsel), (toggle_handler_found _ _ _ Hrow).
Qed.

Lemma after_remove target row st :
  data_todo target = Some (js "remove") ->
  closest_row target = Some row ->
  after (dispatch (list_click target) st)
  = save_listener (set_todos
      (List.filter (fun todo => negb (strict_eq (Todo.id todo) (dataset_id row)))
                   (todos st)) st).
Proof.
  intros Hsel Hrow. rewrite (click_on_remove _ _ Hsel). cbn [and_then after returned].
  by rewrite (remove_handler_found _ _ _ Hrow).
Qed.

Lemma after_edit e target row content st :
  data_todo target = Some (js "value") ->
  closest_row target = Some row ->
  value_region row = Some content ->
  keyCode e = 13%N ->
  after (dispatch (list_keydown e target) st)
  = save_listener (set_todos
      (map (fun todo => if strict_eq (Todo.id todo) (dataset_id row)
                        then Todo.with_value todo content
                        else todo) (todos st)) st).
Proof.
  intros Hsel Hrow Hval Hk. rewrite (keydown_on_value _ _ _ Hsel).
  by rewrite (edit_handler_found _ _ _ _ _ _ Hrow Hval Hk).
Qed.

Lemma filter_keeps_all_without (i : jsstring) (l : list Todo.t) :
  i ∉ map Todo.id l ->
  List.filter (fun todo => negb (strict_eq (Todo.id todo) i)) l = l.
Proof.
  induction l as [|x r IH]; [done|]. cbn [map List.filter].
  rewrite not_elem_of_cons. intros [Hx Hr].
  assert (E : strict_eq (Todo.id x) i = false) by (apply strict_eq_false; congruence).
  rewrite E. cbn [negb]. by rewrite IH.
Qed.

(** X12: adding an item and then removing the row with its id gives back
    the collection as it was before, provided the id was new. *)
Theorem add_then_remove_restores e uuid target row st :
  is_enter e = true ->
  trim (inputEl_value st) <> [] ->
  uuid ∉ map Todo.id (todos st) ->
  data_todo target = Some (js "remove") ->
  closest_row target = Some row ->
  dataset_id row = uuid ->
  todos (run [input_keyup e uuid; list_click target] st) = todos st.
Proof.
  intros He Ht Hfresh Hsel Hrow Hid. rewrite !run_cons. cbn [run fold_left].
  rewrite (after_add _ _ _ He Ht), (after_remove _ _ _ Hsel Hrow), Hid.
  cbn [todos save_listener renderTodos saveTodos set_todos].
  rewrite List.filter_app, (filter_keeps_all_without _ _ Hfresh).
  cbn [List.filter Todo.id]. rewrite strict_eq_refl. apply app_nil_r.
Qed.

Lemma add_then_remove_restores_witness :
  is_enter Enter = true
  /\ trim (inputEl_value (page_ABC_typed (js "buy milk"))) <> []
  /\ (js "id-d" ∉ map Todo.id (todos (page_ABC_typed (js "buy milk"))))
  /\ todos (run [input_keyup Enter (js "id-d");
                 list_click (remove_of (Some {| dataset_id := js "id-d";
                                                value_region := Some (js "buy milk") |}))]
                (page_ABC_typed (js "buy milk")))
     = [item_A; item_B; item_C].
Proof.
  assert (Hfresh : js "id-d" ∉ map Todo.id (todos (page_ABC_typed (js "buy milk"))))
    by (apply (bool_decide_unpack _); vm_compute; exact I).
  split; [reflexivity|]. split; [discriminate|]. split; [exact Hfresh|].
  apply (add_then_remove_restores Enter (js "id-d")
           (remove_of (Some {| dataset_id := js "id-d";
                               value_region := Some (js "buy milk") |}))
           {| dataset_id := js "id-d"; value_region := Some (js "buy milk") |}
           (page_ABC_typed (js "buy milk")));
    try reflexivity; [discriminate|exact Hfresh].
Defined.

(** X13: a toggle and an edit commit give the same collection in either
    order, whatever their rows, the same row included. *)
Theorem toggle_and_edit_commute e t_toggle r_toggle t_value r_value content st :
  data_todo t_toggle = Some (js "toggle") ->
  closest_row t_toggle = Some r_toggle ->
  data_todo t_value = Some (js "value") ->
  closest_row t_value = Some r_value ->
  value_region r_value = Some content ->
  keyCode e = 13%N ->
  todos (run [list_click t_toggle; list_keydown e t_value] st)
  = todos (run [list_keydown e t_value; list_click t_toggle] st).
Proof.
  intros Ht Hrt Hv Hrv Hc Hk. rewrite !run_cons. cbn [run fold_left].
  rewrite !(after_toggle _ _ _ Ht Hrt), !(after_edit _ _ _ _ _ Hv Hrv Hc Hk).
  cbn [todos save_listener renderTodos saveTodos set_todos].
  rewrite !map_map. apply map_ext. intros [v i c]. cbn [Todo.id].
  destruct (strict_eq i (dataset_id r_toggle)) eqn:E1,
           (strict_eq i (dataset_id r_value)) eqn:E2;
    cbn [Todo.id Todo.with_completed Todo.with_value Todo.value Todo.completed];
    by rewrite ?E1, ?E2.
Qed.

Lemma toggle_and_edit_commute_witness :
  todos (run [list_click (toggle_of (Some (row_B (js "new text"))));
              list_keydown Enter (value_of (Some (row_B (js "new text"))))]
             (page_ABC (js "")))
  = todos (run [list_keydown Enter (value_of (Some (row_B (js "new text"))));
                list_click (toggle_of (Some (row_B (js "new text"))))]
               (page_ABC (js ""))).
Proof.
  apply (toggle_and_edit_commute Enter
           (toggle_of (Some (row_B (js "new text")))) (row_B (js "new text"))
           (value_of (Some (row_B (js "new text")))) (row_B (js "new text"))
           (js "new text") (page_ABC (js "")));
    reflexivity.
Defined.

Lemma List_filter_twice {A} (f : A -> bool) (l : list A) :
  List.filter f (List.filter f l) = List.filter f l.
Proof.
  induction l as [|x r IH]; [done|]. cbn [List.filter].
  destruct (f x) eqn:E; [|exact IH]. cbn [List.filter]. by rewrite E, IH.
Qed.

(** X14: a second click on the remove icon of a row (were the row still
    there) removes nothing more. *)
Theorem remove_twice_is_once target row st :
  data_todo target = Some (js "remove") ->
  closest_row target = Some row ->
  todos (run [list_click target; list_click target] st)
  = todos (run [list_click target] st).
Proof.
  intros Hsel Hrow. rewrite !run_cons. cbn [run fold_left].
  rewrite !(after_remove _ _ _ Hsel Hrow).
  cbn [todos save_listener renderTodos saveTodos set_todos].
  apply List_filter_twice.
Qed.

Lemma remove_twice_is_once_witness :
  todos (run [list_click (remove_of (Some (row_B (js "B"))));
              list_click (remove_of (Some (row_B (js "B"))))] (page_ABC (js "")))
  = todos (run [list_click (remove_of (Some (row_B (js "B"))))] (page_ABC (js ""))).
Proof.
  apply (remove_twice_is_once (remove_of (Some (row_B (js "B"))))
           (row_B (js "B")) (page_ABC (js ""))); reflexivity.
Defined.

(** X15: of two edit commits on rows with the same id, the later one
    decides the value: the collection is the one the later commit alone
    would give. *)
Theorem later_edit_wins e1 e2 t1 r1 c1 t2 r2 c2 st :
  data_todo t1 = Some (js "value") -> closest_row t1 = Some r1 ->
  value_region r1 = Some c1 -> keyCode e1 = 13%N ->
  data_todo t2 = Some (js "value") -> closest_row t2 = Some r2 ->
  value_region r2 = Some c2 -> keyCode e2 = 13%N ->
  dataset_id r1 = dataset_id r2 ->
  todos (run [list_keydown e1 t1; list_keydown e2 t2] st)
  = todos (run [list_keydown e2 t2] st).
Proof.
  intros Hs1 Hr1 Hc1 Hk1 Hs2 Hr2 Hc2 Hk2 Hid. rewrite !run_cons. cbn [run fold_left].
  rewrite (after_edit _ _ _ _ st Hs1 Hr1 Hc1 Hk1).
  rewrite !(after_edit _ _ _ _ _ Hs2 Hr2 Hc2 Hk2).
  cbn [todos save_listener renderTodos saveTodos set_todos].
  rewrite map_map, Hid. apply map_ext. intros [v i c]. cbn [Todo.id].
  destruct (strict_eq i (dataset_id r2)) eqn:E;
    cbn [Todo.id Todo.with_value Todo.completed]; by rewrite E.
Qed.

Lemma later_edit_wins_witness :
  todos (run [list_keydown Enter (value_of (Some (row_B (js "draft"))));
              list_keydown Shift_Enter (value_of (Some (row_B (js "final"))))]
             (page_ABC (js "")))
  = todos (run [list_keydown Shift_Enter (value_of (Some (row_B (js "final"))))]
               (page_ABC (js ""))).
Proof.
  apply (later_edit_wins Enter Shift_Enter
           (value_of (Some (row_B (js "draft")))) (row_B (js "draft")) (js "draft")
           (value_of (Some (row_B (js "final")))) (row_B (js "final")) (js "final")
           (page_ABC (js ""))); reflexivity.
Defined.

(** ** Errors *)

(** X16: a keydown with key code 13 in an editable region whose row holds
    no editable region of its own ends with an uncaught [TypeError], after
    the default action has been prevented; the page is as before, also
    when the collection is empty. *)
Theorem edit_without_region_throws e target row st :
  data_todo target = Some (js "value") ->
  closest_row target = Some row ->
  value_region row = None ->
  keyCode e = 13%N ->
  dispatch (list_keydown e target) st
  = {| after := st; uncaught := [TypeError]; defaultPrevented := true |}.
Proof.
  intros Hsel Hrow Hval Hk. rewrite (keydown_on_value _ _ _ Hsel).
  unfold edit_handler. rewrite Hk, Hrow. cbn. by rewrite Hval.
Qed.

Lemma edit_without_region_throws_witness :
  dispatch (list_keydown Enter (value_of (Some bare_row_B))) (page ∅ (js ""))
  = {| after := page ∅ (js "");
       uncaught := [TypeError];
       defaultPrevented := true |}.
Proof.
  apply (edit_without_region_throws Enter (value_of (Some bare_row_B)) bare_row_B);
    reflexivity.
Defined.

(** X17: whatever the event, at most one error is left uncaught, it is a
    [TypeError], it comes only from an event of the list whose row or
    editable region is missing, and the page is then exactly as before. *)
Theorem errors_only_from_missing_elements ev st :
  uncaught (dispatch ev st) = []
  \/ (uncaught (dispatch ev st) = [TypeError]
      /\ after (dispatch ev st) = st
      /\ lacks_element ev).
Proof.
  destruct ev as [text|e uuid|target|e target|hash]; cbn [dispatch];
    try (by left).
  - left. unfold input_keyup_listener. by destruct (_ && _).
  - unfold and_then, delegate, lacks_element.
    destruct (matches target (js "toggle")) eqn:Ht.
    + rewrite (matches_one _ _ (js "remove") Ht) by discriminate.
      destruct (toggle_handler_shape target st) as [[l ->]|[Hrow ->]];
        cbn [after uncaught returned threw app]; auto.
    + cbn [after uncaught returned app].
      destruct (matches target (js "remove")); [|by left].
      destruct (remove_handler_shape target st) as [[l ->]|[Hrow ->]];
        cbn [after uncaught returned threw]; auto.
  - unfold delegate. destruct (matches target (js "value")); [|by left].
    destruct (edit_handler_shape e e target st) as [->|[[l ->]|[Hl ->]]];
      cbn [after uncaught returned]; auto.
Qed.

(** ** Ids on display *)

Lemma row_ids (l : list Todo.t) :
  map li_dataset_id (map createTodoItemEl l) = map Todo.id l.
Proof. rewrite map_map. by apply map_ext. Qed.

Lemma sublist_map {A B} (f : A -> B) (l1 l2 : list A) :
  sublist l1 l2 -> sublist (map f l1) (map f l2).
Proof. induction 1; cbn [map]; by constructor. Qed.

Lemma run_keeps_ids_distinct evs st :
  NoDup (map Todo.id (todos st)) ->
  fresh_run evs st ->
  NoDup (map Todo.id (todos (run evs st))).
Proof.
  revert st. induction evs as [|ev evs IH]; intros st Hnd Hfresh; [done|].
  destruct Hfresh as [Hev Hrest]. rewrite run_cons. apply IH; [|exact Hrest].
  by apply dispatch_keeps_ids_distinct.
Qed.

(** X18: when the stored collection has distinct ids and every generated
    id is new, the rows on display carry distinct [data-id]s after every
    event, so that a row names one item. *)
Theorem rendered_ids_distinct storage hash st0 evs :
  App storage hash = Normal (Some st0) ->
  NoDup (map Todo.id (todos st0)) ->
  fresh_run evs st0 ->
  NoDup (map li_dataset_id (listEl_children (run evs st0))).
Proof.
  intros HApp Hnd Hfresh.
  assert (Hv : in_sync (run evs st0)).
  { destruct (App_result _ _ _ HApp) as (l & _ & ->).
    apply (run_invariant in_sync);
      [apply dispatch_keeps_in_sync|apply renderTodos_in_sync]. }
  destruct Hv as [-> _]. rewrite row_ids.
  eapply sublist_NoDup; [exact (run_keeps_ids_distinct _ _ Hnd Hfresh)|].
  apply sublist_map. rewrite filterTodos_spec. apply spec_visible_sublist.
Qed.

Lemma a_session_fresh : fresh_run a_session fresh_page.
Proof.
  unfold a_session. cbn [fresh_run draws_fresh_id].
  repeat split; apply (bool_decide_unpack _); vm_compute; exact I.
Defined.

Lemma rendered_ids_distinct_witness :
  App ∅ (js "") = Normal (Some fresh_page)
  /\ NoDup (map Todo.id (todos fresh_page))
  /\ fresh_run a_session fresh_page
  /\ NoDup (map li_dataset_id (listEl_children (run a_session fresh_page))).
Proof.
  assert (HApp : App ∅ (js "") = Normal (Some fresh_page)) by reflexivity.
  assert (Hnd : NoDup (map Todo.id (todos fresh_page))) by constructor.
  split; [exact HApp|]. split; [exact Hnd|]. split; [exact a_session_fresh|].
  exact (rendered_ids_distinct ∅ (js "") fresh_page a_session HApp Hnd
           a_session_fresh).
Defined.

(** ** The counter *)

Lemma toggle_map_without (i : jsstring) (l : list Todo.t) :
  i ∉ map Todo.id l ->
  map (fun todo => if strict_eq (Todo.id todo) i
                   then Todo.with_completed todo (negb (Todo.completed todo))
                   else todo) l = l.
Proof.
  induction l as [|x r IH]; [done|]. cbn [map].
  rewrite not_elem_of_cons. intros [Hx Hr].
  assert (E : strict_eq (Todo.id x) i = false) by (apply strict_eq_false; congruence).
  by rewrite E, IH.
Qed.

Lemma open_count_cons (x : Todo.t) (l : list Todo.t) :
  length (filterNotCompletedTodos (x :: l))
  = (if Todo.completed x then 0 else 1) + length (filterNotCompletedTodos l).
Proof. unfold filterNotCompletedTodos. cbn [List.filter]. by destruct (Todo.completed x). Qed.

Lemma toggle_open_count (i : jsstring) (item : Todo.t) (l : list Todo.t) :
  NoDup (map Todo.id l) ->
  item ∈ l ->
  Todo.id item = i ->
  length (filterNotCompletedTodos
            (map (fun todo => if strict_eq (Todo.id todo) i
                              then Todo.with_completed todo (negb (Todo.completed todo))
                              else todo) l))
  + (if Todo.completed item then 0 else 1)
  = length (filterNotCompletedTodos l) + (if Todo.completed item then 1 else 0).
Proof.
  intros Hnd Hin Hid. induction l as [|x r IH]; [by apply elem_of_nil in Hin|].
  cbn [map] in *. apply NoDup_cons in Hnd as [Hx Hnd].
  apply elem_of_cons in Hin as [->|Hin].
  - rewrite Hid in Hx. rewrite (toggle_map_without _ _ Hx).
    rewrite <- Hid, strict_eq_refl, !open_count_cons.
    cbn [Todo.with_completed Todo.completed]. destruct (Todo.completed x); cbn; lia.
  - assert (E : strict_eq (Todo.id x) i = false).
    { apply strict_eq_false. intros Heq. apply Hx. rewrite Heq, <- Hid.
      apply list_elem_of_fmap_2 with (f := Todo.id) in Hin. exact Hin. }
    rewrite E, !open_count_cons. specialize (IH Hnd Hin). lia.
Qed.

(** X19: when ids are distinct, a toggle of the row of an item moves the
    number shown by the counter by exactly one: down when the item was
    open, up when it was completed. *)
Theorem toggle_moves_count_by_one target row item st :
  data_todo target = Some (js "toggle") ->
  closest_row target = Some row ->
  NoDup (map Todo.id (todos st)) ->
  item ∈ todos st ->
  Todo.id item = dataset_id row ->
  let st' := after (dispatch (list_click target) st) in
  countEl_innerHTML st'
  = number_to_string (length (filterNotCompletedTodos (todos st')))
    ++ js " items left"
  /\ length (filterNotCompletedTodos (todos st'))
     + (if Todo.completed item then 0 else 1)
     = length (filterNotCompletedTodos (todos st))
       + (if Todo.completed item then 1 else 0).
Proof.
  intros Hsel Hrow Hnd Hin Hid st'. subst st'.
  rewrite (after_toggle _ _ _ Hsel Hrow). split; [reflexivity|].
  cbn [todos save_listener renderTodos saveTodos set_todos].
  by apply toggle_open_count.
Qed.

Lemma toggle_moves_count_by_one_witness :
  NoDup (map Todo.id (todos (page_ABC (js ""))))
  /\ item_B ∈ todos (page_ABC (js ""))
  /\ countEl_innerHTML (page_ABC (js "")) = js "2 items left"
  /\ countEl_innerHTML
       (after (dispatch (list_click (toggle_of (Some (row_B (js "B")))))
                        (page_ABC (js ""))))
     = js "3 items left".
Proof.
  assert (Hnd : NoDup (map Todo.id (todos (page_ABC (js "")))))
    by (apply (bool_decide_unpack _); vm_compute; exact I).
  assert (Hin : item_B ∈ todos (page_ABC (js "")))
    by (change (item_B ∈ [item_A; item_B; item_C]); do 2 constructor).
  split; [exact Hnd|]. split; [exact Hin|]. split; [reflexivity|].
  destruct (toggle_moves_count_by_one (toggle_of (Some (row_B (js "B"))))
              (row_B (js "B")) item_B (page_ABC (js ""))
              eq_refl eq_refl Hnd Hin eq_refl) as (H & _).
  by rewrite H.
Defined.

(** ** Writes and renders *)

(** X20: one event writes the slot at most once; a write stores the
    serialized collection as the event leaves it and is followed at once by
    a render; an event that does not write renders at most once; nothing
    else is done to the outside. *)
Theorem one_write_then_render ev st :
  let st' := after (dispatch ev st) in
  exists added,
    effects st' = effects st ++ added
    /\ (added = []
        \/ added = [rendered (countEl_innerHTML st') (listEl_children st')]
        \/ added = [setItem LOCAL_STORAGE_KEY
                            (JSON.stringify (JSON.of_todos (todos st')));
                    rendered (countEl_innerHTML st') (listEl_children st')]).
Proof.
  cbn zeta.
  destruct (dispatch_after ev st)
    as [->|[(text & _ & ->)|[(hash & _ & ->)|[l ->]]]].
  - exists []. by rewrite app_nil_r; auto.
  - exists []. by rewrite app_nil_r; auto.
  - eexists. split; [reflexivity|]. right. by left.
  - destruct (save_listener_persists (set_todos l st)) as (Ht & _ & _ & He).
    cbn zeta in *. eexists. split; [exact He|]. right. right. by rewrite Ht.
Qed.

(** ** The three views *)

(** X21: the [active] view shows exactly the items the counter counts, so
    the counter is the number of rows under [#/active]; the [active] and
    [completed] views together hold every item of the collection once. *)
Theorem active_and_completed_partition st :
  filterTodos (js "active") (todos st) = filterNotCompletedTodos (todos st)
  /\ countEl_innerHTML (renderTodos st)
     = number_to_string
         (length (listEl_children (renderTodos (with_hash (js "#/active") st))))
       ++ js " items left"
  /\ filterTodos (js "active") (todos st) ++ filterTodos (js "completed") (todos st)
     ≡ₚ todos st
  /\ length (filterTodos (js "active") (todos st))
     + length (filterTodos (js "completed") (todos st))
     = length (todos st).
Proof.
  assert (Hperm : filterTodos (js "active") (todos st)
                  ++ filterTodos (js "completed") (todos st) ≡ₚ todos st).
  { unfold filterTodos. cbn [strict_eq].
    change (strict_eq (js "active") (js "active")) with true.
    change (strict_eq (js "completed") (js "active")) with false.
    change (strict_eq (js "completed") (js "completed")) with true.
    cbv iota. induction (todos st) as [|x r IH]; [done|].
    cbn [List.filter]. destruct (Todo.completed x); cbn [negb app].
    - by rewrite <- Permutation_middle, IH.
    - by rewrite IH. }
  split; [reflexivity|]. split; [|split; [exact Hperm|]].
  - unfold renderTodos. cbn [countEl_innerHTML listEl_children with_hash
                             location_hash todos getURLHash js N_of_ascii
                             N_of_digits].
    by rewrite length_map.
  - rewrite <- length_app. by rewrite Hperm.
Qed.

(** ** Fragments *)

Lemma getURLHash_no_slash (c : N) (r : jsstring) :
  c <> 47%N -> getURLHash (35%N :: c :: r) = 35%N :: c :: r.
Proof.
  intros Hc. destruct c as [|p]; [reflexivity|].
  do 6 (try (destruct p as [p|p|]; try reflexivity)).
  by destruct Hc.
Qed.

Lemma filterTodos_other (selected : jsstring) (l : list Todo.t) :
  selected <> js "active" -> selected <> js "completed" ->
  filterTodos selected l = l.
Proof.
  intros Ha Hc. unfold filterTodos.
  apply strict_eq_false in Ha. apply strict_eq_false in Hc. by rewrite Ha, Hc.
Qed.

(** X22: of the fragments a URL can have (none, or a string that starts
    with [#]), only [#/active] and [#/completed] filter the list; under any
    other one, [#active], [#/Active] and [#/all] included, every item is
    shown. *)
Theorem only_two_fragments_filter st :
  location_hash st = [] \/ (exists r, location_hash st = 35%N :: r) ->
  location_hash st <> js "#/active" ->
  location_hash st <> js "#/completed" ->
  listEl_children (renderTodos st) = map createTodoItemEl (todos st).
Proof.
  intros Hshape Ha Hc. unfold renderTodos. cbn [listEl_children]. f_equal.
  apply filterTodos_other.
  - destruct Hshape as [E|[r E]]; rewrite E in *; [discriminate|].
    destruct r as [|c r]; [discriminate|].
    destruct (decide (c = 47%N)) as [->|Hne].
    + cbn [getURLHash]. intros Hr. apply Ha. by rewrite Hr.
    + rewrite (getURLHash_no_slash _ _ Hne). discriminate.
  - destruct Hshape as [E|[r E]]; rewrite E in *; [discriminate|].
    destruct r as [|c r]; [discriminate|].
    destruct (decide (c = 47%N)) as [->|Hne].
    + cbn [getURLHash]. intros Hr. apply Hc. by rewrite Hr.
    + rewrite (getURLHash_no_slash _ _ Hne). discriminate.
Qed.

Lemma only_two_fragments_filter_witness :
  (exists r, location_hash (page_ABC (js "#active")) = 35%N :: r)
  /\ map li_value_textContent (listEl_children (renderTodos (page_ABC (js "#active"))))
     = [js "A"; js "B"; js "C"].
Proof.
  split; [by eexists|].
  rewrite (only_two_fragments_filter (page_ABC (js "#active")));
    [reflexivity|right; by eexists|discriminate|discriminate].
Defined.

(** ** Text in the slot that is not JSON *)

Lemma parse_value_bad_start (fuel : nat) (c : N) (r : jsstring) :
  JSON.is_ws c = false ->
  ~ JSON.opens_value c ->
  JSON.parse_value fuel (c :: r) = None.
Proof.
  intros Hws Hopen. destruct fuel as [|f]; [reflexivity|].
  cbn [JSON.parse_value JSON.skip_ws]. rewrite Hws.
  unfold JSON.opens_value in Hopen.
  destruct c as [|p]; [reflexivity|].
  do 7 (try (destruct p as [p|p|]; try reflexivity));
    exfalso; apply Hopen; tauto.
Qed.

(** X23: when the slot holds a text whose first character is neither
    white space, nor a digit or a minus sign, nor the first character of
    any other JSON value, [App] ends with a [SyntaxError]: no collection is
    read and nothing is rendered. *)
Theorem startup_on_malformed_text storage hash (c : N) (r : jsstring) :
  storage !! LOCAL_STORAGE_KEY = Some (c :: r) ->
  JSON.is_ws c = false ->
  (c < 48 \/ 57 < c)%N ->
  c <> 45%N ->
  ~ JSON.opens_value c ->
  App storage hash = Throw SyntaxError.
Proof.
  intros Hslot Hws _ _ Hopen. unfold App, readTodosInStorage, stored_todos, stored_text.
  cbn [localStorage page]. rewrite Hslot. unfold JSON.parse.
  by rewrite (parse_value_bad_start _ _ _ Hws Hopen).
Qed.

Lemma startup_on_malformed_text_witness :
  ({[ LOCAL_STORAGE_KEY := js "undefined" ]} : gmap jsstring jsstring)
    !! LOCAL_STORAGE_KEY = Some (js "undefined")
  /\ App {[ LOCAL_STORAGE_KEY := js "undefined" ]} (js "") = Throw SyntaxError.
Proof.
  split; [reflexivity|].
  apply (startup_on_malformed_text _ (js "") 117%N (js "ndefined"));
    [reflexivity|reflexivity|right; reflexivity|discriminate|].
  unfold JSON.opens_value. intros H.
  repeat (destruct H as [H|H]; [discriminate|]). discriminate.
Defined.
